(** * JapaLearn lexical resolution: fallback terms and dictionary probing

    A shallow embedding of the Python code of
    [JAPALEARN_IMPROVEMENTS_CHECKLIST.md]: the [JapaneseFallbackGenerator]
    class (fallback-term generation, root form, kana conversion, script
    predicates), the [DictionaryFormat] interface, the [Language] and
    [LanguageProfile] lookups and the [AppState] registry; then the code
    around them: the tokenizer functions the checklist replaces, the first
    draft of the generator, [ImprovedTokenizer.get_search_terms],
    [AppState.initialize] and jidoujisho's [generateFallbackTerms].

    Conventions.
    - A Python [str] is a sequence of Unicode code points: [list Z].
      [len], [endswith], slicing and [ord] all work on code points.
    - A call that may raise is a computation in the [outcome] monad; an
      exception that no [try] catches is threaded by [mbind].
    - [await] is sequential composition: the snippets never run two
      coroutines at once. *)

From stdpp Require Import base decidable option list sorting strings gmap.
From Stdlib Require Import ZArith Lia.

Local Open Scope Z_scope.
Local Open Scope list_scope.

(** ** Python values *)

Abbreviation pystr := (list Z).

(** An ASCII literal as a Python string. *)
Definition py (s : string) : pystr :=
  (λ a, Z.of_nat (Ascii.nat_of_ascii a)) <$> String.list_ascii_of_string s.

(** [ord(c)] of a one-character string is the code point itself. *)
Definition ord (c : Z) : Z := c.

(** [len(s)] *)
Definition len (s : pystr) : nat := length s.

(** [word.endswith(suffix)]: the last [len(suffix)] code points of [word]
    are [suffix]; false when [suffix] is longer than [word]. *)
Definition endswith (word suffix : pystr) : bool :=
  bool_decide (drop (len word - len suffix) word = suffix).

(** [word[:-n]] for a slice bound [-n]: Python reads [-0] as [0], so
    [word[:-0]] is empty; otherwise the last [n] code points are cut. *)
Definition slice_to_neg (word : pystr) (n : nat) : pystr :=
  match n with
  | O => []
  | S _ => take (len word - n) word
  end.

(** Truthiness of a list: non-empty. *)
Definition truthy {A} (l : list A) : bool :=
  match l with [] => false | _ :: _ => true end.

(** ** Exceptions *)

Inductive exn : Type :=
  | KeyError (key : string)
  | IndexError
  | RuntimeError (msg : string).

Inductive outcome (A : Type) : Type :=
  | Return (a : A)
  | Raise (e : exn).
Arguments Return {A} a.
Arguments Raise {A} e.

Global Instance outcome_ret : MRet outcome := λ A a, Return a.
Global Instance outcome_bind : MBind outcome := λ A B f m,
  match m with
  | Return a => f a
  | Raise e => Raise e
  end.

(** ** Script predicates ([is_romaji], [is_hiragana], [is_katakana]) *)

(** [all(ord(c) < 128 for c in text)] *)
Definition is_romaji (text : pystr) : bool :=
  forallb (λ c, bool_decide (ord c < 128)) text.

(** [all('ぁ' <= c <= 'ゟ' for c in text if ord(c) > 127)] *)
Definition is_hiragana (text : pystr) : bool :=
  forallb (λ c, bool_decide (0x3041 ≤ c ≤ 0x309f))
          (filter (λ c, ord c > 127) text).

(** [all('ァ' <= c <= 'ヿ' for c in text if ord(c) > 127)] *)
Definition is_katakana (text : pystr) : bool :=
  forallb (λ c, bool_decide (0x30a1 ≤ c ≤ 0x30ff))
          (filter (λ c, ord c > 127) text).

(** ** Kana conversion helpers that the snippet calls but does not define *)

(** Modelled from the spec: [hiragana_to_katakana], the helper called by
    [to_katakana]; its body is not in the sources.  The spec describes
    hiragana↔katakana conversion as an exact code-point shift between the
    blocks U+3041–U+309F and U+30A1–U+30FF, i.e. a shift by [0x60]. *)
Definition hiragana_to_katakana (text : pystr) : pystr :=
  (λ c, if bool_decide (0x3041 ≤ c ≤ 0x309f) then c + 0x60 else c) <$> text.

(** Modelled from the spec: the converter behind [self.kakasi.convert], as
    the spec's [toHiragana]: the inverse code-point shift on the katakana
    block; every other code point is left as it is. *)
Definition shift_to_hiragana (text : pystr) : pystr :=
  (λ c, if bool_decide (0x30a1 ≤ c ≤ 0x30ff) then c - 0x60 else c) <$> text.

(** ** JapaneseFallbackGenerator *)

(** A sudachi morpheme; the code reads [dictionary_form()] only. *)
Record Morpheme : Type := {
  surface : pystr;
  dictionary_form : pystr;
}.

(** The object state set up by [__init__]: the two injected collaborators.
    [sudachi] stands for [self.sudachi.tokenize(_, Tokenizer.SplitMode.C)],
    [kakasi] for [self.kakasi.convert]. Either may raise. *)
Record JapaneseFallbackGenerator : Type := {
  sudachi : pystr → outcome (list Morpheme);
  kakasi : pystr → outcome pystr;
}.

(** The literal of the suffix loop: そうに, ている, た, だ. *)
Definition SUFFIXES : list pystr :=
  [ [0x305d; 0x3046; 0x306b];
    [0x3066; 0x3044; 0x308b];
    [0x305f];
    [0x3060] ].

Section Generator.
Variable self : JapaneseFallbackGenerator.

Definition get_root_form (word : pystr) : outcome pystr :=
  tokens ← sudachi self word;
  match tokens with
  | t :: _ => mret (dictionary_form t)
  | [] => mret word
  end.

Definition to_hiragana (text : pystr) : outcome pystr :=
  kakasi self text.

Definition to_katakana (text : pystr) : outcome pystr :=
  hiragana ← to_hiragana text;
  mret (hiragana_to_katakana hiragana).

(** One iteration of
    [if word.endswith(suffix) and len(word) > len(suffix) + 1:
       terms.append(word[:-len(suffix)])]. *)
Definition strip_step (word : pystr) (terms : list pystr) (suffix : pystr)
  : list pystr :=
  if endswith word suffix && bool_decide (len suffix + 1 < len word)%nat
  then terms ++ [slice_to_neg word (len suffix)]
  else terms.

(** The [for suffix in ...] loop, threading the mutated [terms]. *)
Fixpoint strip_loop (word : pystr) (suffixes : list pystr)
         (terms : list pystr) : list pystr :=
  match suffixes with
  | [] => terms
  | suffix :: rest => strip_loop word rest (strip_step word terms suffix)
  end.

(** [terms.append(x)] guarded by [if x != y]. *)
Definition append_if_differs (terms : list pystr) (x y : pystr)
  : list pystr :=
  if bool_decide (x ≠ y) then terms ++ [x] else terms.

Definition get_fallback_terms (word : pystr) : outcome (list pystr) :=
  let terms := [word] in
  root ← get_root_form word;
  let terms := append_if_differs terms root word in
  terms ←
    (if is_romaji word then
       hiragana ← to_hiragana word;
       katakana ← to_katakana word;
       let terms := terms ++ [hiragana] in
       let terms := terms ++ [katakana] in
       hiragana_root ← get_root_form hiragana;
       let terms := append_if_differs terms hiragana_root hiragana in
       katakana_root ← get_root_form katakana;
       let terms := append_if_differs terms katakana_root katakana in
       mret terms
     else if is_hiragana word then
       katakana ← to_katakana word;
       mret (terms ++ [katakana])
     else if is_katakana word then
       hiragana ← to_hiragana word;
       mret (terms ++ [hiragana])
     else mret terms);
  mret (strip_loop word SUFFIXES terms).
End Generator.

(** ** Dictionaries and lookup *)

(** [DictionaryEntry(word, reading, definition)] *)
Record DictionaryEntry : Type := {
  entry_word : pystr;
  entry_reading : option pystr;
  entry_definition : pystr;
}.

(** The [DictionaryFormat] interface; the lookups call [search] only.
    [search] returns the list of matching entries and, like any call, may
    raise. *)
Record DictionaryFormat : Type := {
  search : pystr → outcome (list DictionaryEntry);
}.

(** [WordInfo(word=..., definition=...)] *)
Record WordInfo : Type := {
  info_word : pystr;
  info_definition : pystr;
}.

(** The value built by the last line of every lookup:
    [WordInfo(word=word, definition="Not found")]. *)
Definition not_found (word : pystr) : WordInfo :=
  {| info_word := word; info_definition := py "Not found" |}.

(** The [Language] base class: its fields, and the abstract method
    [get_fallback_terms] as a field that each subclass fills in
    ([tokenize] is not used by the lookup and is left out). *)
Record Language : Type := {
  language_code : string;
  language_name : string;
  dictionaries : list DictionaryFormat;
  lang_get_fallback_terms : pystr → outcome (list pystr);
}.

Section Probing.
(** What a lookup returns on a hit: [Language.get_word_info] returns
    [result] itself, [LanguageProfile.get_word_info] returns
    [results[0]]. *)
Context {R : Type} (on_hit : list DictionaryEntry → outcome R).

(** The inner loop [for dict_format in self.dictionaries] for one term;
    [Some r] is an early [return r], [None] is falling out of the loop. *)
Fixpoint probe_dictionaries (dicts : list DictionaryFormat) (term : pystr)
  : outcome (option R) :=
  match dicts with
  | [] => mret None
  | dict_format :: rest =>
      result ← search dict_format term;
      if truthy result then r ← on_hit result; mret (Some r)
      else probe_dictionaries rest term
  end.

(** The outer loop [for term in terms]. *)
Fixpoint probe_terms (dicts : list DictionaryFormat) (terms : list pystr)
  : outcome (option R) :=
  match terms with
  | [] => mret None
  | term :: rest =>
      hit ← probe_dictionaries dicts term;
      match hit with
      | Some r => mret (Some r)
      | None => probe_terms dicts rest
      end
  end.
End Probing.

(** [Language.get_word_info] (and [JapaneseLanguage.get_word_info], which
    has the same body): the search result of the first hit, or the
    not-found [WordInfo]. *)
Definition get_word_info (self : Language) (word : pystr)
  : outcome (list DictionaryEntry + WordInfo) :=
  terms ← lang_get_fallback_terms self word;
  hit ← probe_terms (λ result, mret result) (dictionaries self) terms;
  match hit with
  | Some result => mret (inl result)
  | None => mret (inr (not_found word))
  end.

(** [LanguageProfile]: dictionaries plus a tokenizer whose
    [get_search_terms] produces the fallback terms. *)
Record LanguageProfile : Type := {
  profile_dictionaries : list DictionaryFormat;
  get_search_terms : pystr → outcome (list pystr);
}.

(** [results[0]] *)
Definition first_entry (results : list DictionaryEntry)
  : outcome DictionaryEntry :=
  match results !! 0%nat with
  | Some e => mret e
  | None => Raise IndexError
  end.

Definition LanguageProfile_get_word_info (self : LanguageProfile)
    (word : pystr) : outcome (DictionaryEntry + WordInfo) :=
  fallback_terms ← get_search_terms self word;
  hit ← probe_terms first_entry (profile_dictionaries self) fallback_terms;
  match hit with
  | Some entry => mret (inl entry)
  | None => mret (inr (not_found word))
  end.

(** The Japanese language object: the fallback terms come from the
    [JapaneseFallbackGenerator]. *)
Definition JapaneseLanguage (generator : JapaneseFallbackGenerator)
    (dicts : list DictionaryFormat) : Language :=
  {| language_code := "ja";
     language_name := "Japanese";
     dictionaries := dicts;
     lang_get_fallback_terms := get_fallback_terms generator |}.

(** [AppState]: the registry [self.languages: dict[str, Language]]. *)
Record AppState : Type := {
  languages : gmap string Language;
}.

(** [AppState.get_word_info(language, word)]:
    [self.languages[language].get_word_info(word)]; indexing a missing
    key raises [KeyError]. *)
Definition AppState_get_word_info (self : AppState) (language : string)
    (word : pystr) : outcome (list DictionaryEntry + WordInfo) :=
  match languages self !! language with
  | Some lang => get_word_info lang word
  | None => Raise (KeyError language)
  end.

(** ** The suffix step as the specification words it *)

(** The stem left when [suffix] is cut off the end of [term]. *)
Definition stem_of (term suffix : pystr) : pystr :=
  take (len term - len suffix) term.

(** Walk the suffixes in order; a suffix is applied when [term] ends with
    it and the remaining stem has length at least 2; stop as soon as
    [budget] suffixes have been applied. *)
Fixpoint strip_capped (term : pystr) (suffixes : list pystr) (budget : nat)
         (terms : list pystr) {struct suffixes} : list pystr :=
  match suffixes, budget with
  | [], _ => terms
  | _, O => terms
  | suffix :: rest, S budget' =>
      if endswith term suffix && bool_decide (2 ≤ len (stem_of term suffix))%nat
      then strip_capped term rest budget' (terms ++ [stem_of term suffix])
      else strip_capped term rest budget terms
  end.

(** The guard of the suffix loop, and the candidate it appends. *)
Definition strips (word suffix : pystr) : bool :=
  endswith word suffix && bool_decide (len suffix + 1 < len word)%nat.

(** ** Concrete collaborators and words used in the examples *)

(** An analyzer that finds no token, one that is down, and one that
    answers from a small lexicon of (surface, dictionary form) pairs. *)
Definition analyzer_none : pystr → outcome (list Morpheme) :=
  λ _, Return [].

Definition analyzer_down : pystr → outcome (list Morpheme) :=
  λ _, Raise (RuntimeError "analyzer unavailable").

Definition assoc (table : list (pystr * pystr)) (key : pystr) : option pystr :=
  snd <$> List.find (λ kv, bool_decide (fst kv = key)) table.

Definition analyzer_lexicon (lexicon : list (pystr * pystr))
  : pystr → outcome (list Morpheme) :=
  λ word,
    match assoc lexicon word with
    | Some root => Return [ {| surface := word; dictionary_form := root |} ]
    | None => Return []
    end.

(** The code-point-shift converter, and one that also knows the kana
    spelling of some romanized words. *)
Definition shift_kakasi : pystr → outcome pystr :=
  λ text, Return (shift_to_hiragana text).

Definition romaji_kakasi (table : list (pystr * pystr))
  : pystr → outcome pystr :=
  λ text,
    match assoc table text with
    | Some kana => Return kana
    | None => Return (shift_to_hiragana text)
    end.

(** A dictionary held in memory, and one whose backing store fails. *)
Definition memory_dictionary (entries : list DictionaryEntry)
  : DictionaryFormat :=
  {| search := λ term,
       Return (List.filter (λ e, bool_decide (entry_word e = term)) entries) |}.

Definition broken_dictionary : DictionaryFormat :=
  {| search := λ _, Raise (RuntimeError "dictionary unavailable") |}.

(** 走った, 走る, いく, イク, 行く *)
Definition hashitta : pystr := [0x8d70; 0x3063; 0x305f].
Definition hashiru : pystr := [0x8d70; 0x308b].
Definition iku_hiragana : pystr := [0x3044; 0x304f].
Definition iku_katakana : pystr := [0x30a4; 0x30af].
Definition iku_kanji : pystr := [0x884c; 0x304f].

Definition entry (word definition : pystr) : DictionaryEntry :=
  {| entry_word := word; entry_reading := None;
     entry_definition := definition |}.

(** An application state with Japanese as its only language. *)
Definition japanese_app (generator : JapaneseFallbackGenerator)
    (dicts : list DictionaryFormat) : AppState :=
  {| languages := {[ "ja" := JapaneseLanguage generator dicts ]} |}.

(** A generator whose analyzer finds no token and whose converter is the
    code-point shift, and one with a small lexicon: the analyzer maps
    いく and イク to 行く, the converter spells "iku" as いく. *)
Definition plain_generator : JapaneseFallbackGenerator :=
  {| sudachi := analyzer_none; kakasi := shift_kakasi |}.

Definition lexicon_generator : JapaneseFallbackGenerator :=
  {| sudachi := analyzer_lexicon [(iku_hiragana, iku_kanji);
                                  (iku_katakana, iku_kanji)];
     kakasi := romaji_kakasi [(py "iku", iku_hiragana)] |}.

(** A generator whose analyzer knows that 走った is a form of 走る, and one
    whose analyzer is down. *)
Definition root_generator : JapaneseFallbackGenerator :=
  {| sudachi := analyzer_lexicon [(hashitta, hashiru)];
     kakasi := shift_kakasi |}.

Definition down_generator : JapaneseFallbackGenerator :=
  {| sudachi := analyzer_down; kakasi := shift_kakasi |}.

(** 走っ, the stem of 走った, and two dictionaries that both file 走る. *)
Definition hashi_stem : pystr := [0x8d70; 0x3063].

Definition dictionary_A : DictionaryFormat :=
  memory_dictionary [entry hashiru (py "to run (A)")].

Definition dictionary_B : DictionaryFormat :=
  memory_dictionary [entry hashiru (py "to run (B)");
                     entry hashi_stem (py "running (B)")].

(** ** The tokenizer the checklist replaces *)

(** [_to_romanji] (the version marked BEFORE):
    ["".join(mapping.get(c, c) for c in hiragana)].  The checklist elides
    most of the [mapping] literal, so the table is a parameter; a key is a
    one-character string. *)
Definition _to_romanji (mapping : gmap pystr pystr) (hiragana : pystr)
  : pystr :=
  concat ((λ c, default [c] (mapping !! [c])) <$> hiragana).

(** Python's whitespace: the code points [c] with [chr(c).strip() == ""]. *)
Definition is_space (c : Z) : bool :=
  bool_decide (9 ≤ c ≤ 13 ∨ 0x1c ≤ c ≤ 0x20 ∨ c = 0x85 ∨ c = 0xa0
               ∨ c = 0x1680 ∨ 0x2000 ≤ c ≤ 0x200a ∨ c = 0x2028
               ∨ c = 0x2029 ∨ c = 0x202f ∨ c = 0x205f ∨ c = 0x3000).

(** [_fallback_tokenize] (the version marked BEFORE):
    [[{"surface": char, "pos": "unknown"} for char in text if char.strip()]].
    A token is a dict with the two keys. *)
Definition _fallback_tokenize (text : pystr) : list (gmap string pystr) :=
  (λ char, {[ "surface" := [char]; "pos" := py "unknown" ]})
    <$> List.filter (λ char, negb (is_space char)) text.

(** The first draft of [get_fallback_terms] (the version marked AFTER in
    the list of critical issues): three unconditional appends. *)
Definition get_fallback_terms_draft (self : JapaneseFallbackGenerator)
    (word : pystr) : outcome (list pystr) :=
  let terms := [word] in
  root ← get_root_form self word;
  let terms := terms ++ [root] in
  hiragana ← to_hiragana self word;
  let terms := terms ++ [hiragana] in
  katakana ← to_katakana self word;
  let terms := terms ++ [katakana] in
  mret terms.

(** ** ImprovedTokenizer *)

(** [ImprovedTokenizer.get_search_terms] calls [self.get_root_form] and
    the free names [is_romaji], [is_hiragana], [hiragana], [katakana] and
    [COMMON_SUFFIXES], none of which the snippet defines: they are the
    fields of this record. *)
Record ImprovedTokenizer : Type := {
  tokenizer_root_form : pystr → outcome pystr;
  free_is_romaji : pystr → bool;
  free_is_hiragana : pystr → bool;
  hiragana_of : pystr → outcome pystr;
  katakana_of : pystr → outcome pystr;
  COMMON_SUFFIXES : list pystr;
}.

(** [for suffix in COMMON_SUFFIXES: if word.endswith(suffix):
       fallback_terms.append(word[:-len(suffix)])], with no length test. *)
Fixpoint strip_all (word : pystr) (suffixes : list pystr)
         (fallback_terms : list pystr) : list pystr :=
  match suffixes with
  | [] => fallback_terms
  | suffix :: rest =>
      strip_all word rest
        (if endswith word suffix
         then fallback_terms ++ [slice_to_neg word (len suffix)]
         else fallback_terms)
  end.

Definition ImprovedTokenizer_get_search_terms (self : ImprovedTokenizer)
    (word : pystr) : outcome (list pystr) :=
  let fallback_terms := [] in
  let fallback_terms := fallback_terms ++ [word] in
  root ← tokenizer_root_form self word;
  let fallback_terms := append_if_differs fallback_terms root word in
  fallback_terms ←
    (if free_is_romaji self word then
       h ← hiragana_of self word;
       let fallback_terms := fallback_terms ++ [h] in
       k ← katakana_of self word;
       mret (fallback_terms ++ [k])
     else if free_is_hiragana self word then
       k ← katakana_of self word;
       mret (fallback_terms ++ [k])
     else mret fallback_terms);
  mret (strip_all word (COMMON_SUFFIXES self) fallback_terms).

(** A [LanguageProfile] whose tokenizer is an [ImprovedTokenizer]. *)
Definition improved_profile (tokenizer : ImprovedTokenizer)
    (dicts : list DictionaryFormat) : LanguageProfile :=
  {| profile_dictionaries := dicts;
     get_search_terms := ImprovedTokenizer_get_search_terms tokenizer |}.

(** ** AppState.initialize *)

(** [lang.dictionaries = dicts] *)
Definition set_dictionaries (lang : Language) (dicts : list DictionaryFormat)
  : Language :=
  {| language_code := language_code lang;
     language_name := language_name lang;
     dictionaries := dicts;
     lang_get_fallback_terms := lang_get_fallback_terms lang |}.

Section Initialize.
(** The calls [JapaneseLanguage.load()], [ChineseLanguage.load()] and
    [self._load_dicts_for_lang(lang)], whose bodies are not given. *)
Variables JapaneseLanguage_load ChineseLanguage_load : outcome Language.
Variable _load_dicts_for_lang : Language → outcome (list DictionaryFormat).

(** [for lang in self.languages.values():
       lang.dictionaries = await self._load_dicts_for_lang(lang)]
    The languages are visited in insertion order; the assignment changes
    the object held by the registry, so the state is returned together
    with the outcome, also when a load raises. *)
Fixpoint load_all_dictionaries (entries : list (string * Language))
         (self : AppState) : AppState * outcome () :=
  match entries with
  | [] => (self, Return ())
  | (code, lang) :: rest =>
      match _load_dicts_for_lang lang with
      | Return dicts =>
          load_all_dictionaries rest
            {| languages :=
                 <[code := set_dictionaries lang dicts]> (languages self) |}
      | Raise e => (self, Raise e)
      end
  end.

(** [AppState.initialize]: the registry is replaced by the literal
    [{"ja": ..., "zh": ...}] once both languages are loaded, then the
    dictionaries of each are loaded. *)
Definition initialize (self : AppState) : AppState * outcome () :=
  match JapaneseLanguage_load with
  | Raise e => (self, Raise e)
  | Return ja =>
      match ChineseLanguage_load with
      | Raise e => (self, Raise e)
      | Return zh =>
          let self := {| languages := <["zh" := zh]> (<["ja" := ja]> ∅) |} in
          load_all_dictionaries [("ja", ja); ("zh", zh)] self
      end
  end.
End Initialize.

(** ** jidoujisho's generateFallbackTerms, as the checklist quotes it *)

(** A Dart [String] is a sequence of UTF-16 code units; [length],
    [endsWith] and [substring] count code units.  The lists of this part
    are read that way. *)

(** The [kanaKit] object. *)
Record KanaKit : Type := {
  isRomaji : pystr → bool;
  isHiragana : pystr → bool;
  isKatakana : pystr → bool;
  toHiragana : pystr → pystr;
  toKatakana : pystr → pystr;
}.

(** [s.substring(start, end)] for [0 <= start <= end <= s.length], which
    holds at both calls below (they are guarded by [length > 4]). *)
Definition substring (s : pystr) (start end_ : nat) : pystr :=
  take (end_ - start) (drop start s).

(** そうに *)
Definition SOUNI : pystr := [0x305d; 0x3046; 0x306b].

Definition generateFallbackTerms (kanaKit : KanaKit)
    (getRootForm : pystr → outcome pystr) (searchTerm : pystr)
  : outcome (list pystr) :=
  let fallbackTerms := [] in
  rootForm ← getRootForm searchTerm;
  let fallbackTerms := append_if_differs fallbackTerms rootForm searchTerm in
  if isRomaji kanaKit searchTerm then
    let hiragana := toHiragana kanaKit searchTerm in
    let katakana := toKatakana kanaKit searchTerm in
    hiraganaFallback ← getRootForm hiragana;
    katakanaFallback ← getRootForm katakana;
    let fallbackTerms := fallbackTerms ++ [hiragana] in
    let fallbackTerms :=
      append_if_differs fallbackTerms hiraganaFallback hiragana in
    let fallbackTerms := fallbackTerms ++ [katakana] in
    let fallbackTerms :=
      append_if_differs fallbackTerms katakanaFallback katakana in
    mret fallbackTerms
  else
    let fallbackTerms :=
      if isHiragana kanaKit searchTerm
      then fallbackTerms ++ [toKatakana kanaKit searchTerm]
      else fallbackTerms in
    let fallbackTerms :=
      if isKatakana kanaKit searchTerm
      then fallbackTerms ++ [toHiragana kanaKit searchTerm]
      else fallbackTerms in
    let fallbackTerms :=
      if bool_decide (4 < length searchTerm)%nat then
        let fallbackTerms :=
          if endswith searchTerm SOUNI
          then fallbackTerms
                 ++ [substring searchTerm 0 (length searchTerm - 3)]
          else fallbackTerms in
        fallbackTerms ++ [substring searchTerm 0 (length searchTerm - 2)]
      else fallbackTerms in
    mret fallbackTerms.

(** Collaborators for the examples: a kana kit built on the code-point
    shift, a tokenizer whose suffix list is the generator's, and a mapping
    with the two entries the checklist shows (あ, か). *)
Definition shift_kana_kit : KanaKit :=
  {| isRomaji := is_romaji;
     isHiragana := is_hiragana;
     isKatakana := is_katakana;
     toHiragana := shift_to_hiragana;
     toKatakana := λ t, hiragana_to_katakana (shift_to_hiragana t) |}.

Definition plain_tokenizer : ImprovedTokenizer :=
  {| tokenizer_root_form := get_root_form plain_generator;
     free_is_romaji := is_romaji;
     free_is_hiragana := is_hiragana;
     hiragana_of := to_hiragana plain_generator;
     katakana_of := to_katakana plain_generator;
     COMMON_SUFFIXES := SUFFIXES |}.

Definition shown_mapping : gmap pystr pystr :=
  {[ [0x3042] := py "a"; [0x304b] := py "ka" ]}.

(** An initialization in which both languages and their dictionaries
    load, started from a state with another registry; and one in which
    the Chinese language fails to load. *)
Definition loaded_ja : Language := JapaneseLanguage root_generator [].
Definition loaded_zh : Language := JapaneseLanguage plain_generator [].

Definition initialized_app : AppState :=
  {| languages :=
       <["zh" := set_dictionaries loaded_zh [dictionary_A]]>
         (<["ja" := set_dictionaries loaded_ja [dictionary_A]]>
            (<["zh" := loaded_zh]> (<["ja" := loaded_ja]> ∅))) |}.

(** ** String facts *)

Lemma endswith_true (word suffix : pystr) :
  endswith word suffix = true ↔ ∃ stem, word = stem ++ suffix.
Proof.
  unfold endswith, len. rewrite bool_decide_eq_true. split.
  - intros H. exists (take (length word - length suffix) word).
    pose proof (take_drop (length word - length suffix) word) as E.
    rewrite H in E. done.
  - intros [stem ->]. rewrite length_app.
    replace (length stem + length suffix - length suffix)%nat
      with (length stem) by lia.
    apply drop_app_length.
Qed.

Lemma endswith_last (word suffix : pystr) (c : Z) :
  endswith word suffix = true → last suffix = Some c → last word = Some c.
Proof.
  intros [stem ->]%endswith_true Hc.
  destruct suffix as [|a suffix]; [discriminate|].
  rewrite last_app, Hc. done.
Qed.

Lemma slice_to_neg_app (stem suffix : pystr) :
  suffix ≠ [] → slice_to_neg (stem ++ suffix) (len suffix) = stem.
Proof.
  intros Hne. unfold slice_to_neg, len.
  destruct suffix as [|a suffix]; [done|]. cbn [length].
  rewrite length_app. cbn [length].
  replace (length stem + S (length suffix) - S (length suffix))%nat
    with (length stem) by lia.
  apply take_app_length.
Qed.

Lemma stem_of_app (stem suffix : pystr) : stem_of (stem ++ suffix) suffix = stem.
Proof.
  unfold stem_of, len. rewrite length_app.
  replace (length stem + length suffix - length suffix)%nat
    with (length stem) by lia.
  apply take_app_length.
Qed.

Lemma strips_true (word suffix : pystr) :
  suffix ≠ [] →
  strips word suffix = true ↔
  ∃ stem, word = stem ++ suffix ∧ (2 ≤ len stem)%nat
          ∧ slice_to_neg word (len suffix) = stem.
Proof.
  intros Hne. unfold strips. rewrite andb_true_iff, endswith_true,
    bool_decide_eq_true. split.
  - intros [[stem ->] Hlen]. exists stem. unfold len in *.
    rewrite length_app in Hlen. split; [done|]. split; [lia|].
    by apply slice_to_neg_app.
  - intros (stem & -> & Hlen & _). split; [by exists stem|].
    unfold len in *. rewrite length_app. lia.
Qed.

Lemma strip_loop_filter (word : pystr) (suffixes terms : list pystr) :
  strip_loop word suffixes terms =
  terms ++ ((λ s, slice_to_neg word (len s)) <$> List.filter (strips word) suffixes).
Proof.
  revert terms. induction suffixes as [|s rest IH]; intros terms; cbn.
  - by rewrite app_nil_r.
  - rewrite IH. unfold strip_step. fold (strips word s).
    destruct (strips word s); cbn; [by rewrite <- app_assoc|done].
Qed.

(** At most one of the four suffixes can end a given word: their last
    code points are に, る, た, だ. *)
Lemma one_suffix_matches (word : pystr) :
  (length (List.filter (endswith word) SUFFIXES) ≤ 1)%nat.
Proof.
  unfold SUFFIXES. cbn [List.filter].
  repeat match goal with
  | |- context [endswith word ?s] =>
      let H := fresh "H" in
      destruct (endswith word s) eqn:H;
      [apply (endswith_last _ _ (default 0 (last s))) in H; [cbn in H|reflexivity]|]
  end; cbn; try lia; congruence.
Qed.

Lemma filter_strips_length (word : pystr) :
  (length (List.filter (strips word) SUFFIXES)
   ≤ length (List.filter (endswith word) SUFFIXES))%nat.
Proof.
  induction SUFFIXES as [|s l IH]; cbn; [done|].
  unfold strips at 1. destruct (endswith word s); cbn; [|done].
  case_bool_decide; cbn; lia.
Qed.

Lemma SUFFIXES_nonempty (suffix : pystr) :
  In suffix SUFFIXES → (0 < length suffix)%nat.
Proof.
  unfold SUFFIXES. cbn. intros H.
  repeat (destruct H as [<-|H]; [cbn; lia|]). done.
Qed.

Lemma strip_loop_stems (word : pystr) (terms : list pystr) :
  ∃ stems, strip_loop word SUFFIXES terms = terms ++ stems
           ∧ (length stems ≤ 1)%nat
           ∧ ∀ s, s ∈ stems → (length s < length word)%nat.
Proof.
  eexists. split; [apply strip_loop_filter|]. split.
  - rewrite length_fmap. etrans; [apply filter_strips_length|].
    apply one_suffix_matches.
  - intros s (suffix & -> & Hin)%list_elem_of_fmap.
    apply list_elem_of_In, filter_In in Hin as [Hin Hs].
    apply SUFFIXES_nonempty in Hin.
    apply strips_true in Hs as (stem & -> & _ & ->).
    + rewrite length_app. lia.
    + intros ->. cbn in Hin. lia.
Qed.

Lemma slice_to_neg_stem_of (word suffix : pystr) :
  (0 < length suffix)%nat → slice_to_neg word (len suffix) = stem_of word suffix.
Proof.
  unfold slice_to_neg, stem_of, len. destruct (length suffix); [lia|done].
Qed.

Lemma spec_guard (word suffix : pystr) :
  endswith word suffix && bool_decide (2 ≤ len (stem_of word suffix))%nat
  = strips word suffix.
Proof.
  unfold strips. destruct (endswith word suffix) eqn:E; [|done]. cbn.
  apply endswith_true in E as [stem ->]. rewrite stem_of_app.
  apply bool_decide_ext. unfold len. rewrite length_app. lia.
Qed.

Lemma strip_capped_enough (word : pystr) (suffixes : list pystr) :
  (∀ s, In s suffixes → (0 < length s)%nat) →
  ∀ budget terms,
    (length (List.filter (strips word) suffixes) ≤ budget)%nat →
    strip_loop word suffixes terms = strip_capped word suffixes budget terms.
Proof.
  induction suffixes as [|s rest IH]; intros Hne budget terms Hb; [done|].
  cbn [strip_loop strip_capped]. unfold strip_step. fold (strips word s).
  cbn [List.filter] in Hb.
  assert (Hrest : ∀ s', In s' rest → (0 < length s')%nat)
    by (intros s' ?; apply Hne; by right).
  destruct budget as [|budget'].
  - destruct (strips word s) eqn:Hs; [cbn in Hb; lia|].
    rewrite strip_loop_filter.
    destruct (List.filter (strips word) rest); [|cbn in Hb; lia].
    cbn. by rewrite app_nil_r.
  - rewrite spec_guard. destruct (strips word s) eqn:Hs.
    + rewrite slice_to_neg_stem_of by (apply Hne; by left).
      apply IH; [done|]. cbn in Hb. lia.
    + by apply IH.
Qed.

(** ** The suffix step *)

(** C10: at most one suffix of the list そうに, ている, た, だ can end a
    given word, because the last code points of the four suffixes are
    pairwise distinct; so the suffix loop appends at most one candidate,
    whatever the word. *)
Theorem at_most_one_suffix_applies (word : pystr) (terms : list pystr) :
  NoDup (last <$> SUFFIXES)
  ∧ (length (List.filter (endswith word) SUFFIXES) ≤ 1)%nat
  ∧ (length (strip_loop word SUFFIXES terms) ≤ length terms + 1)%nat.
Proof.
  split; [|split].
  - apply (bool_decide_unpack _). by vm_compute.
  - apply one_suffix_matches.
  - destruct (strip_loop_stems word terms) as (stems & -> & Hlen & _).
    rewrite length_app. lia.
Qed.

(** C8: the suffix list is ordered by length, longest first; the loop
    appends exactly the stems [word] minus [suffix] for the suffixes that
    end the word and leave a stem of length at least 2; it appends at most
    two of them, and it computes what the walk that stops after the first
    two applied suffixes computes. *)
Theorem suffix_stripping (word : pystr) (terms : list pystr) :
  StronglySorted (λ a b, len b ≤ len a)%nat SUFFIXES
  ∧ (∃ stems,
        strip_loop word SUFFIXES terms = terms ++ stems
        ∧ (∀ stem, stem ∈ stems ↔
             ∃ suffix, suffix ∈ SUFFIXES ∧ word = stem ++ suffix
                       ∧ (2 ≤ len stem)%nat)
        ∧ (length stems ≤ 2)%nat)
  ∧ strip_loop word SUFFIXES terms = strip_capped word SUFFIXES 2 terms.
Proof.
  split; [|split].
  - unfold SUFFIXES.
    repeat (apply SSorted_cons; [|repeat constructor; cbn; lia]).
    constructor.
  - eexists. split; [apply strip_loop_filter|]. split.
    + intros stem. rewrite list_elem_of_fmap. split.
      * intros (suffix & -> & Hin).
        apply list_elem_of_In, filter_In in Hin as [Hin Hs].
        pose proof (SUFFIXES_nonempty _ Hin) as Hpos.
        apply strips_true in Hs as (stem & Hw & Hlen & Hstem);
          [|intros ->; cbn in Hpos; lia].
        exists suffix. rewrite Hstem. by rewrite list_elem_of_In.
      * intros (suffix & Hin & Hw & Hlen). exists suffix.
        apply list_elem_of_In in Hin.
        pose proof (SUFFIXES_nonempty _ Hin) as Hpos.
        assert (Hne : suffix ≠ []) by (intros ->; cbn in Hpos; lia).
        split.
        -- rewrite Hw. by rewrite slice_to_neg_app.
        -- apply list_elem_of_In, filter_In. split; [done|].
           apply strips_true; [done|]. exists stem. split; [done|].
           split; [done|]. rewrite Hw. by apply slice_to_neg_app.
    + rewrite length_fmap. etrans; [apply filter_strips_length|].
      etrans; [apply one_suffix_matches|]. lia.
  - apply strip_capped_enough; [apply SUFFIXES_nonempty|].
    etrans; [apply filter_strips_length|].
    etrans; [apply one_suffix_matches|]. lia.
Qed.

(** ** The fallback generator *)

Lemma get_root_form_cases (self : JapaneseFallbackGenerator) (word : pystr) :
  match get_root_form self word with
  | Return _ => True
  | Raise e => sudachi self word = Raise e
  end.
Proof.
  unfold get_root_form. destruct (sudachi self word) as [[|t ts]|e]; done.
Qed.

Lemma append_if_differs_app (terms : list pystr) (x y : pystr) :
  ∃ extra, append_if_differs terms x y = terms ++ extra
           ∧ (length extra ≤ 1)%nat ∧ ∀ z, z ∈ extra → z = x ∧ x ≠ y.
Proof.
  unfold append_if_differs. case_bool_decide.
  - exists [x]. split; [done|]. split; [cbn; lia|].
    by intros z ->%list_elem_of_singleton.
  - exists []. rewrite app_nil_r. split; [done|]. split; [cbn; lia|].
    by intros z ?%elem_of_nil.
Qed.

Ltac root_form self w :=
  let H := fresh "Hroot" in
  pose proof (get_root_form_cases self w) as H;
  destruct (get_root_form self w) as [?root|?e] eqn:?;
  [clear H|cbn; eauto].

Ltac convert self w :=
  destruct (kakasi self w) as [?kana|?e] eqn:?; [|cbn; eauto].

Ltac split_append :=
  match goal with
  | |- context [append_if_differs ?t ?x ?y] =>
      let extra := fresh "extra" in
      destruct (append_if_differs_app t x y) as (extra & -> & ? & ?)
  end.

Ltac split_stems :=
  match goal with
  | |- context [strip_loop ?w SUFFIXES ?t] =>
      let stems := fresh "stems" in
      destruct (strip_loop_stems w t) as (stems & -> & ? & ?)
  end.

Arguments strip_loop : simpl never.

(** The shape of every list the generator returns, and where an exception
    it raises comes from. *)
Lemma get_fallback_terms_shape (self : JapaneseFallbackGenerator)
    (word : pystr) :
  match get_fallback_terms self word with
  | Return terms =>
      ∃ roots convs stems,
        terms = word :: roots ++ convs ++ stems
        ∧ (length roots ≤ 1)%nat
        ∧ (∀ r, r ∈ roots → r ≠ word ∧ get_root_form self word = Return r)
        ∧ (length convs ≤ 4)%nat
        ∧ (is_romaji word = false → is_hiragana word = false →
           is_katakana word = false → convs = [])
        ∧ (length stems ≤ 1)%nat
        ∧ (∀ s, s ∈ stems → (length s < length word)%nat)
  | Raise e => ∃ text, sudachi self text = Raise e ∨ kakasi self text = Raise e
  end.
Proof.
  unfold get_fallback_terms, to_katakana, to_hiragana.
  root_form self word. cbn.
  destruct (append_if_differs_app [word] root word) as (roots & -> & ? & Hroots).
  assert (Hr : ∀ r, r ∈ roots → r ≠ word ∧ Return root = Return r)
    by (intros r [-> ?]%Hroots; done).
  destruct (is_romaji word); [|destruct (is_hiragana word);
                                [|destruct (is_katakana word)]].
  - convert self word. cbn.
    root_form self kana. cbn.
    root_form self (hiragana_to_katakana kana). cbn.
    do 2 split_append. split_stems.
    exists roots, ([kana; hiragana_to_katakana kana] ++ extra0 ++ extra), stems.
    split; [cbn; by rewrite <- ?app_assoc|].
    repeat split; try done; try (by apply Hr).
    rewrite !length_app. cbn. lia.
  - convert self word. cbn. split_stems.
    exists roots, [hiragana_to_katakana kana], stems.
    split; [cbn; by rewrite <- ?app_assoc|].
    repeat split; try done; try (by apply Hr). cbn. lia.
  - convert self word. cbn. split_stems.
    exists roots, [kana], stems.
    split; [cbn; by rewrite <- ?app_assoc|].
    repeat split; try done; try (by apply Hr). cbn. lia.
  - cbn. split_stems.
    exists roots, [], stems.
    split; [cbn; by rewrite <- ?app_assoc|].
    repeat split; try done; try (by apply Hr). cbn. lia.
Qed.

(** C2 (as stated): the Original term is not always present exactly once.
    For the romanized term "iku", an analyzer that finds no token and a
    converter that leaves Latin letters alone, the generator returns the
    Original three times. *)
Lemma original_term_repeated :
  get_fallback_terms plain_generator (py "iku")
  = Return [py "iku"; py "iku"; py "iku"]
  ∧ length (List.filter (λ term, bool_decide (term = py "iku"))
                         [py "iku"; py "iku"; py "iku"]) = 3%nat.
Proof. split; reflexivity. Qed.

(** C2 (amended): the generator returns at most 8 candidate terms and the
    Original term is always the first of them (it may occur again further
    down the list); when it does not return, the exception is one raised
    by the analyzer or by the converter. *)
Theorem fallback_terms_bounded (self : JapaneseFallbackGenerator)
    (word : pystr) :
  match get_fallback_terms self word with
  | Return terms => (length terms ≤ 8)%nat ∧ head terms = Some word
  | Raise e => ∃ text, sudachi self text = Raise e ∨ kakasi self text = Raise e
  end.
Proof.
  pose proof (get_fallback_terms_shape self word) as H.
  destruct (get_fallback_terms self word) as [terms|e]; [|done].
  destruct H as (roots & convs & stems & -> & ? & _ & ? & _ & ? & _).
  split; [|done]. cbn. rewrite !length_app. lia.
Qed.

(** C4 (as stated): the candidate list can contain duplicates.  For "iku",
    spelled いく by the converter, with いく and イク both analysed to the
    dictionary form 行く, the root form 行く is appended twice. *)
Lemma fallback_terms_duplicate :
  get_fallback_terms lexicon_generator (py "iku")
  = Return [py "iku"; iku_hiragana; iku_katakana; iku_kanji; iku_kanji]
  ∧ ¬ NoDup [py "iku"; iku_hiragana; iku_katakana; iku_kanji; iku_kanji].
Proof.
  split; [reflexivity|].
  intros H. do 3 apply NoDup_cons_1_2 in H.
  apply NoDup_cons_1_1 in H. apply H. by left.
Qed.

(** ** Script predicates *)

Lemma is_romaji_true (text : pystr) :
  is_romaji text = true ↔ ∀ c, c ∈ text → c < 128.
Proof.
  unfold is_romaji, ord. rewrite forallb_forall. split.
  - intros H c Hc%list_elem_of_In. by apply H, bool_decide_eq_true in Hc.
  - intros H c Hc%list_elem_of_In. by apply bool_decide_eq_true, H.
Qed.

Lemma kana_block_true (lo hi : Z) (text : pystr) :
  forallb (λ c, bool_decide (lo ≤ c ≤ hi)) (filter (λ c, ord c > 127) text)
  = true
  ↔ ∀ c, c ∈ text → 127 < c → lo ≤ c ≤ hi.
Proof.
  unfold ord. rewrite forallb_forall. split.
  - intros H c Hc Hbig. apply (bool_decide_eq_true_1 _), H, list_elem_of_In.
    apply list_elem_of_filter. split; [lia|done].
  - intros H c [Hbig Hc]%list_elem_of_In%list_elem_of_filter.
    apply bool_decide_eq_true, H; [done|lia].
Qed.

(** C6 (as stated): the predicates are not mutually exclusive on non-empty
    input, and the empty string is not rejected: the ASCII string "abc"
    and the empty string both satisfy all three predicates. *)
Lemma ascii_text_in_every_script :
  py "abc" ≠ []
  ∧ is_romaji (py "abc") = true
  ∧ is_hiragana (py "abc") = true
  ∧ is_katakana (py "abc") = true
  ∧ is_romaji [] = true ∧ is_hiragana [] = true ∧ is_katakana [] = true.
Proof. repeat split; done. Qed.

(** C6 (amended): [is_romaji] holds exactly when every code point is
    ASCII; [is_hiragana] and [is_katakana] hold exactly when every
    non-ASCII code point lies in the hiragana block U+3041–U+309F, resp.
    the katakana block U+30A1–U+30FF.  On an ASCII-only string, the empty
    one included, all three hold, and no error is raised; on a string with
    a non-ASCII code point [is_romaji] fails and the two kana predicates
    exclude each other. *)
Theorem script_predicates (text : pystr) :
  (is_romaji text = true ↔ ∀ c, c ∈ text → c < 128)
  ∧ (is_hiragana text = true ↔
       ∀ c, c ∈ text → 127 < c → 0x3041 ≤ c ≤ 0x309f)
  ∧ (is_katakana text = true ↔
       ∀ c, c ∈ text → 127 < c → 0x30a1 ≤ c ≤ 0x30ff)
  ∧ (is_romaji text = true →
       is_hiragana text = true ∧ is_katakana text = true)
  ∧ (is_romaji text = false →
       is_hiragana text && is_katakana text = false).
Proof.
  split; [apply is_romaji_true|].
  split; [apply kana_block_true|].
  split; [apply kana_block_true|]. split.
  - intros H. unfold is_hiragana, is_katakana. rewrite !kana_block_true.
    rewrite is_romaji_true in H.
    split; intros c Hc%H ?; lia.
  - intros H. apply not_true_iff_false. rewrite andb_true_iff.
    unfold is_hiragana, is_katakana. rewrite !kana_block_true.
    intros [Hh Hk]. apply not_true_iff_false in H. apply H.
    apply is_romaji_true. intros c Hc.
    destruct (decide (c < 128)) as [|Hbig]; [done|].
    specialize (Hh c Hc). specialize (Hk c Hc). lia.
Qed.

(** ** Kana conversion *)

Lemma shift_to_hiragana_idemp (text : pystr) :
  shift_to_hiragana (shift_to_hiragana text) = shift_to_hiragana text.
Proof.
  unfold shift_to_hiragana. rewrite <- list_fmap_compose.
  apply list_fmap_ext. intros _ c _. cbn.
  repeat case_bool_decide; lia.
Qed.

Lemma shift_round_trip (text : pystr) :
  shift_to_hiragana (hiragana_to_katakana (shift_to_hiragana text))
  = shift_to_hiragana text.
Proof.
  unfold shift_to_hiragana, hiragana_to_katakana.
  rewrite <- !list_fmap_compose.
  apply list_fmap_ext. intros _ c _. cbn.
  repeat case_bool_decide; lia.
Qed.

Lemma katakana_restored (text : pystr) :
  is_katakana text = true →
  hiragana_to_katakana (shift_to_hiragana text) = text.
Proof.
  unfold is_katakana. rewrite kana_block_true. intros H.
  unfold shift_to_hiragana, hiragana_to_katakana.
  rewrite <- list_fmap_compose. rewrite <- (list_fmap_id text) at 2.
  apply list_fmap_ext. intros i c Hc. cbn.
  apply list_elem_of_lookup_2 in Hc. specialize (H c Hc).
  repeat case_bool_decide; lia.
Qed.

Lemma shift_katakana_only (x : pystr) :
  is_katakana x = true →
  shift_to_hiragana x
  = (λ c, if bool_decide (127 < c) then c - 0x60 else c) <$> x.
Proof.
  unfold is_katakana. rewrite kana_block_true. intros H.
  unfold shift_to_hiragana. apply list_fmap_ext. intros i c Hc.
  apply list_elem_of_lookup_2 in Hc. specialize (H c Hc).
  repeat case_bool_decide; lia.
Qed.

Lemma shift_hiragana_only (y : pystr) :
  is_hiragana y = true →
  shift_to_hiragana y = y
  ∧ hiragana_to_katakana y
    = (λ c, if bool_decide (127 < c) then c + 0x60 else c) <$> y.
Proof.
  unfold is_hiragana. rewrite kana_block_true. intros H. split.
  - unfold shift_to_hiragana. rewrite <- (list_fmap_id y) at 2.
    apply list_fmap_ext. intros i c Hc. cbn.
    apply list_elem_of_lookup_2 in Hc. specialize (H c Hc).
    repeat case_bool_decide; lia.
  - unfold hiragana_to_katakana. apply list_fmap_ext. intros i c Hc.
    apply list_elem_of_lookup_2 in Hc. specialize (H c Hc).
    repeat case_bool_decide; lia.
Qed.

Lemma shifted_is_hiragana (x : pystr) :
  is_katakana x = true → is_hiragana (shift_to_hiragana x) = true.
Proof.
  unfold is_katakana, is_hiragana. rewrite !kana_block_true. intros H c Hc Hbig.
  unfold shift_to_hiragana in Hc.
  apply list_elem_of_fmap in Hc as (c0 & -> & Hc0). specialize (H c0 Hc0).
  repeat case_bool_decide; lia.
Qed.

Lemma shifted_is_katakana (y : pystr) :
  is_hiragana y = true → is_katakana (hiragana_to_katakana y) = true.
Proof.
  unfold is_katakana, is_hiragana. rewrite !kana_block_true. intros H c Hc Hbig.
  unfold hiragana_to_katakana in Hc.
  apply list_elem_of_fmap in Hc as (c0 & -> & Hc0). specialize (H c0 Hc0).
  repeat case_bool_decide; lia.
Qed.

Lemma hiragana_restored (y : pystr) :
  is_hiragana y = true → shift_to_hiragana (hiragana_to_katakana y) = y.
Proof.
  unfold is_hiragana. rewrite kana_block_true. intros H.
  unfold shift_to_hiragana, hiragana_to_katakana.
  rewrite <- list_fmap_compose. rewrite <- (list_fmap_id y) at 2.
  apply list_fmap_ext. intros i c Hc. cbn.
  apply list_elem_of_lookup_2 in Hc. specialize (H c Hc).
  repeat case_bool_decide; lia.
Qed.

(** C5: with the converter and [hiragana_to_katakana] as the code-point
    shift between the two kana blocks, the conversions are an exact,
    reversible shift.  For every katakana-only string [x]:
    [to_katakana(to_hiragana(x))] equals [to_katakana(x)],
    [to_hiragana(to_katakana(to_hiragana(x)))] equals [to_hiragana(x)] and
    [to_katakana(x)] gives [x] back; [to_hiragana(x)] is [x] with every
    non-ASCII code point lowered by exactly [0x60], it is hiragana-only,
    and [to_katakana] of it is [x] again.  For every hiragana-only string
    [y]: [to_katakana(y)] is [y] with every non-ASCII code point raised by
    exactly [0x60], it is katakana-only, and [to_hiragana] of it is [y]
    again. *)
Theorem kana_round_trip (analyzer : pystr → outcome (list Morpheme))
    (x y : pystr) :
  is_katakana x = true →
  is_hiragana y = true →
  let self := {| sudachi := analyzer; kakasi := shift_kakasi |} in
  (h ← to_hiragana self x; to_katakana self h) = to_katakana self x
  ∧ (h ← to_hiragana self x; k ← to_katakana self h; to_hiragana self k)
    = to_hiragana self x
  ∧ to_katakana self x = Return x
  ∧ (∃ h, to_hiragana self x = Return h
          ∧ h = (λ c, if bool_decide (127 < c) then c - 0x60 else c) <$> x
          ∧ is_hiragana h = true
          ∧ to_katakana self h = Return x)
  ∧ (∃ k, to_katakana self y = Return k
          ∧ k = (λ c, if bool_decide (127 < c) then c + 0x60 else c) <$> y
          ∧ is_katakana k = true
          ∧ to_hiragana self k = Return y).
Proof.
  intros Hx Hy self.
  destruct (shift_hiragana_only y Hy) as [Hshift Hup].
  unfold to_katakana, to_hiragana, self, shift_kakasi. cbn.
  rewrite shift_to_hiragana_idemp, shift_round_trip, katakana_restored by done.
  do 3 (split; [done|]). split.
  - exists (shift_to_hiragana x). split; [done|].
    split; [by apply shift_katakana_only|].
    split; [by apply shifted_is_hiragana|].
    by rewrite shift_to_hiragana_idemp, katakana_restored.
  - exists (hiragana_to_katakana y). rewrite Hshift. split; [done|].
    split; [done|]. split; [by apply shifted_is_katakana|].
    by rewrite hiragana_restored.
Qed.

Lemma kana_round_trip_witness :
  (h ← to_hiragana plain_generator iku_katakana; to_katakana plain_generator h)
  = to_katakana plain_generator iku_katakana
  ∧ (h ← to_hiragana plain_generator iku_katakana;
     k ← to_katakana plain_generator h; to_hiragana plain_generator k)
    = to_hiragana plain_generator iku_katakana
  ∧ to_katakana plain_generator iku_katakana = Return iku_katakana
  ∧ (∃ h, to_hiragana plain_generator iku_katakana = Return h
          ∧ h = (λ c, if bool_decide (127 < c) then c - 0x60 else c)
                  <$> iku_katakana
          ∧ is_hiragana h = true
          ∧ to_katakana plain_generator h = Return iku_katakana)
  ∧ (∃ k, to_katakana plain_generator iku_hiragana = Return k
          ∧ k = (λ c, if bool_decide (127 < c) then c + 0x60 else c)
                  <$> iku_hiragana
          ∧ is_katakana k = true
          ∧ to_hiragana plain_generator k = Return iku_hiragana).
Proof.
  apply (kana_round_trip analyzer_none iku_katakana iku_hiragana);
    reflexivity.
Defined.

(** ** Probing the dictionaries *)

Section ProbingFacts.
Context {R : Type} (on_hit : list DictionaryEntry → outcome R).

Lemma probe_dictionaries_miss (dicts : list DictionaryFormat) (term : pystr) :
  (∀ d, d ∈ dicts → search d term = Return []) →
  probe_dictionaries on_hit dicts term = Return None.
Proof.
  induction dicts as [|d dicts IH]; intros H; [done|].
  cbn. rewrite (H d) by left. cbn. apply IH.
  intros d' Hd'. apply H. by right.
Qed.

Lemma probe_dictionaries_first (before after : list DictionaryFormat)
    (A : DictionaryFormat) (term : pystr) :
  (∀ d, d ∈ before → search d term = Return []) →
  probe_dictionaries on_hit (before ++ A :: after) term
  = probe_dictionaries on_hit (A :: after) term.
Proof.
  induction before as [|d before IH]; intros H; [done|].
  cbn. rewrite (H d) by left. cbn. apply IH.
  intros d' Hd'. apply H. by right.
Qed.

Lemma probe_terms_skip (dicts : list DictionaryFormat)
    (before rest : list pystr) :
  (∀ t d, t ∈ before → d ∈ dicts → search d t = Return []) →
  probe_terms on_hit dicts (before ++ rest) = probe_terms on_hit dicts rest.
Proof.
  induction before as [|t before IH]; intros H; [done|].
  cbn. rewrite probe_dictionaries_miss.
  - cbn. apply IH. intros t' d Ht' Hd. apply H; [by right|done].
  - intros d Hd. apply H; [by left|done].
Qed.

(** The first non-empty search result, in term-major order, ends the
    probing. *)
Lemma probe_terms_hit (dicts_before dicts_after : list DictionaryFormat)
    (A : DictionaryFormat) (terms_before terms_after : list pystr)
    (T : pystr) (entries : list DictionaryEntry) :
  (∀ t d, t ∈ terms_before → d ∈ dicts_before ++ A :: dicts_after →
          search d t = Return []) →
  (∀ d, d ∈ dicts_before → search d T = Return []) →
  search A T = Return entries → entries ≠ [] →
  probe_terms on_hit (dicts_before ++ A :: dicts_after)
              (terms_before ++ T :: terms_after)
  = (r ← on_hit entries; mret (Some r)).
Proof.
  intros Hterms Hdicts HA Hne.
  rewrite probe_terms_skip by done. cbn.
  rewrite probe_dictionaries_first by done. cbn. rewrite HA. cbn.
  destruct entries as [|e entries]; [done|]. cbn.
  by destruct (on_hit (e :: entries)).
Qed.

(** An exception raised by a search ends the probing as well. *)
Lemma probe_terms_raise (dicts_before dicts_after : list DictionaryFormat)
    (A : DictionaryFormat) (terms_before terms_after : list pystr)
    (T : pystr) (e : exn) :
  (∀ t d, t ∈ terms_before → d ∈ dicts_before ++ A :: dicts_after →
          search d t = Return []) →
  (∀ d, d ∈ dicts_before → search d T = Return []) →
  search A T = Raise e →
  probe_terms on_hit (dicts_before ++ A :: dicts_after)
              (terms_before ++ T :: terms_after)
  = Raise e.
Proof.
  intros Hterms Hdicts HA.
  rewrite probe_terms_skip by done. cbn.
  rewrite probe_dictionaries_first by done. cbn. by rewrite HA.
Qed.

Lemma probe_terms_miss (dicts : list DictionaryFormat) (terms : list pystr) :
  (∀ t d, t ∈ terms → d ∈ dicts → search d t = Return []) →
  probe_terms on_hit dicts terms = Return None.
Proof.
  intros H. rewrite <- (app_nil_r terms). by rewrite probe_terms_skip.
Qed.
End ProbingFacts.

Lemma first_entry_nonempty (entries : list DictionaryEntry) :
  entries ≠ [] → ∃ e, head entries = Some e ∧ first_entry entries = Return e.
Proof. destruct entries as [|e rest]; [done|]. intros _. by exists e. Qed.

(** C3: candidate terms are probed in order and, for each, the
    dictionaries in configured order; the first non-empty search result
    is returned, whatever later dictionaries or later terms would give.
    So when [A] holds entries for [T] and nothing probed before [(T, A)]
    matched, the lookup returns [A]'s result ([Language.get_word_info]),
    resp. its first entry ([LanguageProfile.get_word_info]); in
    particular, looking up [T] itself with the Japanese generator returns
    [A]'s result even if a dictionary [B] after [A] also files [T]. *)
Theorem first_match_priority
    (dicts_before : list DictionaryFormat) (A : DictionaryFormat)
    (dicts_after : list DictionaryFormat)
    (terms_before : list pystr) (T : pystr) (terms_after : list pystr)
    (entries : list DictionaryEntry) :
  (∀ t d, t ∈ terms_before → d ∈ dicts_before ++ A :: dicts_after →
          search d t = Return []) →
  (∀ d, d ∈ dicts_before → search d T = Return []) →
  search A T = Return entries →
  entries ≠ [] →
  (∀ lang word,
      dictionaries lang = dicts_before ++ A :: dicts_after →
      lang_get_fallback_terms lang word
      = Return (terms_before ++ T :: terms_after) →
      get_word_info lang word = Return (inl entries))
  ∧ (∀ profile word,
      profile_dictionaries profile = dicts_before ++ A :: dicts_after →
      get_search_terms profile word
      = Return (terms_before ++ T :: terms_after) →
      ∃ e, head entries = Some e
           ∧ LanguageProfile_get_word_info profile word = Return (inl e))
  ∧ (∀ generator candidates,
      get_fallback_terms generator T = Return candidates →
      get_word_info
        (JapaneseLanguage generator (dicts_before ++ A :: dicts_after)) T
      = Return (inl entries)).
Proof.
  intros Hterms Hdicts HA Hne. split; [|split].
  - intros lang word Hd Ht. unfold get_word_info. rewrite Ht, Hd. cbn.
    by rewrite (probe_terms_hit _ _ _ _ _ _ _ entries).
  - intros profile word Hd Ht.
    destruct (first_entry_nonempty entries Hne) as (e & He & Hfirst).
    exists e. split; [done|].
    unfold LanguageProfile_get_word_info. rewrite Ht, Hd. cbn.
    rewrite (probe_terms_hit _ _ _ _ _ _ _ entries) by done.
    by rewrite Hfirst.
  - intros generator candidates Hrun.
    pose proof (get_fallback_terms_shape generator T) as Hshape.
    rewrite Hrun in Hshape.
    destruct Hshape as (roots & convs & stems & -> & _).
    unfold get_word_info. cbn [lang_get_fallback_terms dictionaries JapaneseLanguage].
    rewrite Hrun. cbn [mbind outcome_bind].
    pose proof (probe_terms_hit (λ result, mret result)
                  dicts_before dicts_after A [] (roots ++ convs ++ stems)
                  T entries) as Hhit.
    cbn [app] in Hhit. rewrite Hhit; [done| |done..].
    by intros t d ?%elem_of_nil.
Qed.

Lemma first_match_priority_witness :
  get_word_info (JapaneseLanguage root_generator [dictionary_A; dictionary_B])
                hashitta
  = Return (inl [entry hashiru (py "to run (A)")]).
Proof.
  refine (proj1 (first_match_priority [] dictionary_A [dictionary_B]
                   [hashitta] hashiru [hashi_stem]
                   [entry hashiru (py "to run (A)")] _ _ _ _)
            (JapaneseLanguage root_generator [dictionary_A; dictionary_B])
            hashitta _ _).
  - intros t d Ht Hd. apply list_elem_of_singleton in Ht as ->.
    apply elem_of_cons in Hd as [->|Hd]; [reflexivity|].
    apply list_elem_of_singleton in Hd as ->. reflexivity.
  - by intros d ?%elem_of_nil.
  - reflexivity.
  - discriminate.
  - reflexivity.
  - reflexivity.
Defined.

(** C9 (as stated): an error raised by one dictionary is not treated as
    an empty result.  With a failing dictionary in front of one that
    files 走った, the lookup of 走った raises; with an empty dictionary in
    its place the lookup finds the entry. *)
Lemma source_error_is_fatal :
  get_word_info
    (JapaneseLanguage plain_generator
       [broken_dictionary; memory_dictionary [entry hashitta (py "ran")]])
    hashitta
  = Raise (RuntimeError "dictionary unavailable")
  ∧ get_word_info
      (JapaneseLanguage plain_generator
         [memory_dictionary []; memory_dictionary [entry hashitta (py "ran")]])
      hashitta
    = Return (inl [entry hashitta (py "ran")]).
Proof. split; reflexivity. Qed.

(** C9 (amended): nothing catches an error raised by [search].  When the
    first probe that does not return an empty result raises, the lookup
    raises the same error to its caller: the dictionaries after it and
    the remaining candidate terms are not probed. *)
Theorem source_error_propagates
    (dicts_before : list DictionaryFormat) (A : DictionaryFormat)
    (dicts_after : list DictionaryFormat)
    (terms_before : list pystr) (T : pystr) (terms_after : list pystr)
    (e : exn) :
  (∀ t d, t ∈ terms_before → d ∈ dicts_before ++ A :: dicts_after →
          search d t = Return []) →
  (∀ d, d ∈ dicts_before → search d T = Return []) →
  search A T = Raise e →
  (∀ lang word,
      dictionaries lang = dicts_before ++ A :: dicts_after →
      lang_get_fallback_terms lang word
      = Return (terms_before ++ T :: terms_after) →
      get_word_info lang word = Raise e)
  ∧ (∀ profile word,
      profile_dictionaries profile = dicts_before ++ A :: dicts_after →
      get_search_terms profile word
      = Return (terms_before ++ T :: terms_after) →
      LanguageProfile_get_word_info profile word = Raise e).
Proof.
  intros Hterms Hdicts HA. split.
  - intros lang word Hd Ht. unfold get_word_info. rewrite Ht, Hd. cbn.
    by rewrite (probe_terms_raise _ _ _ _ _ _ _ e).
  - intros profile word Hd Ht.
    unfold LanguageProfile_get_word_info. rewrite Ht, Hd. cbn.
    by rewrite (probe_terms_raise _ _ _ _ _ _ _ e).
Qed.

Lemma source_error_propagates_witness :
  get_word_info
    (JapaneseLanguage root_generator [dictionary_A; broken_dictionary])
    hashitta
  = Raise (RuntimeError "dictionary unavailable").
Proof.
  refine (proj1 (source_error_propagates [dictionary_A] broken_dictionary []
                   [] hashitta [hashiru; hashi_stem]
                   (RuntimeError "dictionary unavailable") _ _ _)
            (JapaneseLanguage root_generator [dictionary_A; broken_dictionary])
            hashitta _ _).
  - by intros t d ?%elem_of_nil.
  - intros d Hd. apply list_elem_of_singleton in Hd as ->. reflexivity.
  - reflexivity.
  - reflexivity.
  - reflexivity.
Defined.

(** ** The not-found outcome *)

(** C1 (as stated): the not-found value does not carry the attempted
    terms.  Two generators try different fallback terms for 走った (one
    knows the root form 走る, the other does not); with no dictionary
    match both lookups return the same [WordInfo], so no reading of the
    returned value gives back the list of attempted terms. *)
Lemma not_found_drops_attempted_terms :
  AppState_get_word_info (japanese_app root_generator []) "ja" hashitta
  = Return (inr (not_found hashitta))
  ∧ AppState_get_word_info (japanese_app plain_generator []) "ja" hashitta
    = Return (inr (not_found hashitta))
  ∧ get_fallback_terms root_generator hashitta
    = Return [hashitta; hashiru; hashi_stem]
  ∧ get_fallback_terms plain_generator hashitta
    = Return [hashitta; hashi_stem]
  ∧ ¬ ∃ attempted : WordInfo → list pystr,
        ∀ generator dicts word terms info,
          word ≠ [] →
          get_fallback_terms generator word = Return terms →
          AppState_get_word_info (japanese_app generator dicts) "ja" word
          = Return (inr info) →
          attempted info = terms.
Proof.
  assert (H1 : AppState_get_word_info (japanese_app root_generator []) "ja"
                 hashitta = Return (inr (not_found hashitta)))
    by reflexivity.
  assert (H2 : AppState_get_word_info (japanese_app plain_generator []) "ja"
                 hashitta = Return (inr (not_found hashitta)))
    by reflexivity.
  assert (T1 : get_fallback_terms root_generator hashitta
               = Return [hashitta; hashiru; hashi_stem]) by reflexivity.
  assert (T2 : get_fallback_terms plain_generator hashitta
               = Return [hashitta; hashi_stem]) by reflexivity.
  repeat split; try done.
  intros [attempted Hcarries].
  assert (Hne : hashitta ≠ []) by discriminate.
  pose proof (Hcarries _ _ _ _ _ Hne T1 H1) as E1.
  pose proof (Hcarries _ _ _ _ _ Hne T2 H2) as E2.
  rewrite E1 in E2. discriminate.
Qed.

(** C1 (amended): for every language code registered in the application
    state and every term whose fallback terms find no dictionary match,
    the lookup returns [WordInfo(word=word, definition="Not found")]: the
    not-found value names the term looked up and carries no list of the
    terms attempted. *)
Theorem not_found_outcome (app : AppState) (code : string) (lang : Language)
    (word : pystr) (terms : list pystr) :
  languages app !! code = Some lang →
  lang_get_fallback_terms lang word = Return terms →
  (∀ t d, t ∈ terms → d ∈ dictionaries lang → search d t = Return []) →
  AppState_get_word_info app code word
  = Return (inr {| info_word := word; info_definition := py "Not found" |}).
Proof.
  intros Hlang Hterms Hmiss.
  unfold AppState_get_word_info. rewrite Hlang.
  unfold get_word_info. rewrite Hterms. cbn.
  by rewrite probe_terms_miss.
Qed.

Lemma not_found_outcome_witness :
  AppState_get_word_info (japanese_app root_generator [dictionary_A])
                         "ja" (py "zzz")
  = Return (inr {| info_word := py "zzz";
                   info_definition := py "Not found" |}).
Proof.
  refine (not_found_outcome (japanese_app root_generator [dictionary_A]) "ja"
            (JapaneseLanguage root_generator [dictionary_A]) (py "zzz")
            [py "zzz"; py "zzz"; py "zzz"] _ _ _).
  - reflexivity.
  - reflexivity.
  - intros t d Ht Hd. apply list_elem_of_singleton in Hd as ->.
    repeat (apply elem_of_cons in Ht as [->|Ht]; [reflexivity|]).
    by apply elem_of_nil in Ht.
Defined.

(** ** A failing analyzer *)

(** C7 (as stated): a failure of the analyzer is propagated.  With the
    analyzer down, [get_root_form], the generator and the lookup of 走った
    all raise, although the dictionary files 走った itself. *)
Lemma analyzer_failure_is_fatal :
  get_root_form down_generator hashitta
  = Raise (RuntimeError "analyzer unavailable")
  ∧ get_fallback_terms down_generator hashitta
    = Raise (RuntimeError "analyzer unavailable")
  ∧ get_word_info
      (JapaneseLanguage down_generator
         [memory_dictionary [entry hashitta (py "ran")]])
      hashitta
    = Raise (RuntimeError "analyzer unavailable").
Proof. repeat split; reflexivity. Qed.

(** C7 (amended): when the analyzer produces no tokens, [get_root_form]
    returns the word unchanged (and with tokens, the dictionary form of
    the first one).  When the analyzer raises, nothing catches the
    exception: [get_root_form], the fallback generator and the lookup all
    raise it, and no lookup outcome is returned. *)
Theorem root_form_degradation (self : JapaneseFallbackGenerator)
    (dicts : list DictionaryFormat) (word : pystr) :
  match sudachi self word with
  | Return [] => get_root_form self word = Return word
  | Return (t :: _) => get_root_form self word = Return (dictionary_form t)
  | Raise e =>
      get_root_form self word = Raise e
      ∧ get_fallback_terms self word = Raise e
      ∧ get_word_info (JapaneseLanguage self dicts) word = Raise e
      ∧ AppState_get_word_info (japanese_app self dicts) "ja" word = Raise e
  end.
Proof.
  destruct (sudachi self word) as [[|t ts]|e] eqn:Hs.
  - unfold get_root_form. by rewrite Hs.
  - unfold get_root_form. by rewrite Hs.
  - assert (Hroot : get_root_form self word = Raise e)
      by (unfold get_root_form; by rewrite Hs).
    assert (Hterms : get_fallback_terms self word = Raise e)
      by (unfold get_fallback_terms; by rewrite Hroot).
    assert (Hinfo : get_word_info (JapaneseLanguage self dicts) word = Raise e).
    { unfold get_word_info. cbn [lang_get_fallback_terms JapaneseLanguage].
      by rewrite Hterms. }
    assert (Happ : AppState_get_word_info (japanese_app self dicts) "ja" word
                   = Raise e).
    { unfold AppState_get_word_info, japanese_app. cbn [languages].
      by rewrite lookup_singleton_eq. }
    done.
Qed.

(** ** The replaced tokenizer *)

Lemma to_romanji_app (mapping : gmap pystr pystr) (a b : pystr) :
  _to_romanji mapping (a ++ b)
  = _to_romanji mapping a ++ _to_romanji mapping b.
Proof. unfold _to_romanji. by rewrite fmap_app, concat_app. Qed.

(** X1: a character that is not a key of the mapping passes through
    [_to_romanji] unchanged and in place, between the conversions of what
    precedes and what follows it (が, with the table the checklist shows,
    stays が). *)
Theorem to_romanji_keeps_unmapped (mapping : gmap pystr pystr)
    (before after : pystr) (c : Z) :
  mapping !! [c] = None →
  _to_romanji mapping (before ++ c :: after)
  = _to_romanji mapping before ++ c :: _to_romanji mapping after.
Proof.
  intros Hc. rewrite to_romanji_app. f_equal.
  unfold _to_romanji. cbn. by rewrite Hc.
Qed.

Lemma to_romanji_keeps_unmapped_witness :
  _to_romanji shown_mapping ([0x304b] ++ 0x304c :: [0x3042])
  = _to_romanji shown_mapping [0x304b] ++ 0x304c :: _to_romanji shown_mapping [0x3042].
Proof.
  apply (to_romanji_keeps_unmapped shown_mapping [0x304b] [0x3042] 0x304c).
  reflexivity.
Defined.

Lemma fallback_token_fields (c : Z) :
  ({[ "surface" := [c]; "pos" := py "unknown" ]} : gmap string pystr)
    !! "surface" = Some [c]
  ∧ ({[ "surface" := [c]; "pos" := py "unknown" ]} : gmap string pystr)
      !! "pos" = Some (py "unknown").
Proof.
  split.
  - apply lookup_insert_eq.
  - rewrite lookup_insert_ne by done. apply lookup_singleton_eq.
Qed.

(** X2: [_fallback_tokenize] splits a text into its characters: it
    returns one token per non-whitespace character, in order, each with
    that single character as surface and the part of speech "unknown";
    joining the surfaces gives the text without its whitespace. *)
Theorem fallback_tokenize_splits (text : pystr) :
  concat ((λ tok, default [] (tok !! "surface")) <$> _fallback_tokenize text)
  = List.filter (λ c, negb (is_space c)) text
  ∧ Forall (λ tok, tok !! "pos" = Some (py "unknown")
                   ∧ ∃ c, tok !! "surface" = Some [c]
                          ∧ c ∈ text ∧ is_space c = false)
           (_fallback_tokenize text)
  ∧ (length (_fallback_tokenize text) ≤ length text)%nat.
Proof.
  unfold _fallback_tokenize. split; [|split].
  - induction text as [|c text IH]; [done|]. cbn [List.filter].
    destruct (is_space c); cbn [negb]; [done|].
    rewrite !fmap_cons. cbn [concat].
    rewrite (proj1 (fallback_token_fields c)). cbn [default app].
    by rewrite IH.
  - apply Forall_fmap, Forall_forall. intros c Hc. cbn.
    apply list_elem_of_In, filter_In in Hc as [Hc Hs].
    destruct (fallback_token_fields c) as [Hsurface Hpos].
    split; [done|]. exists c. split; [done|]. split.
    + by apply list_elem_of_In.
    + by destruct (is_space c).
  - rewrite length_fmap. apply filter_length_le.
Qed.

(** ** More on the fallback generator *)

(** A successful run of the generator, read backwards: the collaborator
    answers it used and the list it built from them. *)
Lemma get_fallback_terms_inv (self : JapaneseFallbackGenerator)
    (word : pystr) (terms : list pystr) :
  get_fallback_terms self word = Return terms →
  ∃ root base,
    get_root_form self word = Return root
    ∧ base = append_if_differs [word] root word
    ∧ ((is_romaji word = true
        ∧ ∃ h hr kr,
            kakasi self word = Return h
            ∧ get_root_form self h = Return hr
            ∧ get_root_form self (hiragana_to_katakana h) = Return kr
            ∧ terms = strip_loop word SUFFIXES
                (append_if_differs
                   (append_if_differs
                      ((base ++ [h]) ++ [hiragana_to_katakana h]) hr h)
                   kr (hiragana_to_katakana h)))
       ∨ (is_romaji word = false ∧ is_hiragana word = true
          ∧ ∃ h, kakasi self word = Return h
                 ∧ terms = strip_loop word SUFFIXES
                             (base ++ [hiragana_to_katakana h]))
       ∨ (is_romaji word = false ∧ is_hiragana word = false
          ∧ is_katakana word = true
          ∧ ∃ h, kakasi self word = Return h
                 ∧ terms = strip_loop word SUFFIXES (base ++ [h]))
       ∨ (is_romaji word = false ∧ is_hiragana word = false
          ∧ is_katakana word = false
          ∧ terms = strip_loop word SUFFIXES base)).
Proof.
  unfold get_fallback_terms, to_katakana, to_hiragana.
  destruct (get_root_form self word) as [root|e] eqn:Hroot; [|done]. cbn.
  intros H. exists root, (append_if_differs [word] root word).
  split; [done|]. split; [done|].
  destruct (is_romaji word); [|destruct (is_hiragana word);
                                [|destruct (is_katakana word)]].
  - left. split; [done|].
    destruct (kakasi self word) as [h|e] eqn:Hh; [|done]. cbn in H.
    destruct (get_root_form self h) as [hr|e] eqn:Hhr; [|done]. cbn in H.
    destruct (get_root_form self (hiragana_to_katakana h)) as [kr|e] eqn:Hkr;
      [|done]. cbn in H.
    exists h, hr, kr. cbv [mret outcome_ret] in H. injection H as <-. by repeat split.
  - right. left. split; [done|]. split; [done|].
    destruct (kakasi self word) as [h|e] eqn:Hh; [|done]. cbn in H.
    exists h. cbv [mret outcome_ret] in H. injection H as <-. by repeat split.
  - right. right. left. do 3 (split; [done|]).
    destruct (kakasi self word) as [h|e] eqn:Hh; [|done]. cbn in H.
    exists h. cbv [mret outcome_ret] in H. injection H as <-. by repeat split.
  - right. right. right. do 3 (split; [done|]). cbn in H.
    cbv [mret outcome_ret] in H. injection H as <-. by repeat split.
Qed.

(** No suffix of the list can end a romanized word: the suffixes end in
    kana, the word in an ASCII character. *)
Lemma romaji_no_stems (word : pystr) (terms : list pystr) :
  is_romaji word = true → strip_loop word SUFFIXES terms = terms.
Proof.
  intros Hr. rewrite strip_loop_filter.
  replace (List.filter (strips word) SUFFIXES) with (@nil pystr);
    [by rewrite app_nil_r|].
  symmetry. unfold SUFFIXES, strips. cbn [List.filter].
  repeat match goal with
  | |- context [endswith word ?s] =>
      let H := fresh "H" in
      destruct (endswith word s) eqn:H;
      [apply (endswith_last _ _ (default 0 (last s))) in H; [|reflexivity];
       cbn in H; apply last_Some_elem_of in H;
       apply (proj1 (is_romaji_true word) Hr) in H; lia|]
  end.
  done.
Qed.

Lemma append_if_differs_length (terms : list pystr) (x y : pystr) :
  (length terms ≤ length (append_if_differs terms x y) ≤ length terms + 1)%nat.
Proof.
  destruct (append_if_differs_app terms x y) as (extra & -> & ? & _).
  rewrite length_app. lia.
Qed.

Lemma strip_loop_length (word : pystr) (terms : list pystr) :
  (length terms ≤ length (strip_loop word SUFFIXES terms) ≤ length terms + 1)%nat.
Proof.
  destruct (strip_loop_stems word terms) as (stems & -> & ? & _).
  rewrite length_app. lia.
Qed.

Lemma base_elements (word root : pystr) :
  word ∈ append_if_differs [word] root word
  ∧ root ∈ append_if_differs [word] root word
  ∧ head (append_if_differs [word] root word) = Some word
  ∧ (root ≠ word → append_if_differs [word] root word = [word; root]).
Proof.
  unfold append_if_differs. case_bool_decide as Hne; cbn.
  - split; [by left|]. split; [by right; left|]. by split.
  - subst root. split; [by left|]. split; [by left|]. by split.
Qed.

Lemma append_if_differs_eq (terms : list pystr) (x y : pystr) :
  append_if_differs terms x y
  = terms ++ (if bool_decide (x = y) then [] else [x]).
Proof.
  unfold append_if_differs. case_bool_decide as Hne.
  - by rewrite bool_decide_eq_false_2.
  - rewrite bool_decide_eq_true_2 by done. by rewrite app_nil_r.
Qed.

(** The stems appended by the suffix loop depend on the word only. *)
Lemma strip_loop_stems_spec (word : pystr) :
  ∃ stems,
    (∀ terms, strip_loop word SUFFIXES terms = terms ++ stems)
    ∧ (length stems ≤ 1)%nat
    ∧ ∀ stem, stem ∈ stems →
        stem ≠ word
        ∧ ∃ suffix, suffix ∈ SUFFIXES ∧ word = stem ++ suffix
                    ∧ (2 ≤ len stem)%nat.
Proof.
  exists ((λ s, slice_to_neg word (len s))
            <$> List.filter (strips word) SUFFIXES).
  split; [intros terms; apply strip_loop_filter|]. split.
  - rewrite length_fmap. etrans; [apply filter_strips_length|].
    apply one_suffix_matches.
  - intros stem (suffix & -> & Hin)%list_elem_of_fmap.
    apply list_elem_of_In, filter_In in Hin as [Hin Hs].
    pose proof (SUFFIXES_nonempty _ Hin) as Hpos.
    apply strips_true in Hs as (stem & Hw & Hlen & ->);
      [|intros ->; cbn in Hpos; lia].
    split.
    + intros ->. apply (f_equal length) in Hw.
      rewrite length_app in Hw. lia.
    + exists suffix. by rewrite list_elem_of_In.
Qed.

(** C4 (amended): the list is built without general deduplication.  It is
    the Original term; then the root form, present exactly when it
    differs from the Original; then the script conversions of the branch
    the term takes, appended unconditionally (for a romanized term the
    hiragana and the katakana form, then the root form of each, present
    exactly when it differs from that form; for a hiragana term the
    katakana form; for a katakana term the hiragana form; otherwise
    none); then the stripped stems: at most one, the term minus a suffix
    of the list, of length at least 2 and different from the Original.
    A term that takes no conversion branch lists the Original exactly
    once; no candidate is ever compared with all the terms collected. *)
Theorem fallback_terms_guards (self : JapaneseFallbackGenerator)
    (word : pystr) (terms : list pystr) :
  get_fallback_terms self word = Return terms →
  ∃ root convs stems,
    get_root_form self word = Return root
    ∧ terms = word :: (if bool_decide (root = word) then [] else [root])
                      ++ convs ++ stems
    ∧ (if is_romaji word then
         ∃ hiragana katakana hiragana_root katakana_root,
           to_hiragana self word = Return hiragana
           ∧ to_katakana self word = Return katakana
           ∧ get_root_form self hiragana = Return hiragana_root
           ∧ get_root_form self katakana = Return katakana_root
           ∧ convs = [hiragana; katakana]
                     ++ (if bool_decide (hiragana_root = hiragana)
                         then [] else [hiragana_root])
                     ++ (if bool_decide (katakana_root = katakana)
                         then [] else [katakana_root])
       else if is_hiragana word then
         ∃ katakana, to_katakana self word = Return katakana
                     ∧ convs = [katakana]
       else if is_katakana word then
         ∃ hiragana, to_hiragana self word = Return hiragana
                     ∧ convs = [hiragana]
       else
         convs = []
         ∧ word ∉ (if bool_decide (root = word) then [] else [root])
                  ++ convs ++ stems)
    ∧ (length stems ≤ 1)%nat
    ∧ (∀ stem, stem ∈ stems →
         stem ≠ word
         ∧ ∃ suffix, suffix ∈ SUFFIXES ∧ word = stem ++ suffix
                     ∧ (2 ≤ len stem)%nat).
Proof.
  intros (root & base & Hroot & Hbase & Hcases)%get_fallback_terms_inv.
  rewrite append_if_differs_eq in Hbase. subst base.
  destruct (strip_loop_stems_spec word) as (stems & Hloop & Hlen & Hstems).
  exists root.
  destruct Hcases as [(Hr & h & hr & kr & Hh & Hhr & Hkr & ->)
                     |[(Hr & Hhi & h & Hh & ->)
                      |[(Hr & Hhi & Hka & h & Hh & ->)
                       |(Hr & Hhi & Hka & ->)]]];
    rewrite Hloop, ?append_if_differs_eq.
  - exists ([h; hiragana_to_katakana h]
            ++ (if bool_decide (hr = h) then [] else [hr])
            ++ (if bool_decide (kr = hiragana_to_katakana h)
                then [] else [kr])), stems.
    split; [done|]. split; [cbn; by rewrite <- ?app_assoc|].
    split; [|done]. rewrite Hr.
    exists h, (hiragana_to_katakana h), hr, kr.
    unfold to_katakana, to_hiragana. rewrite Hh. by repeat split.
  - exists [hiragana_to_katakana h], stems.
    split; [done|]. split; [cbn; by rewrite <- ?app_assoc|].
    split; [|done]. rewrite Hr, Hhi.
    exists (hiragana_to_katakana h).
    unfold to_katakana, to_hiragana. by rewrite Hh.
  - exists [h], stems.
    split; [done|]. split; [cbn; by rewrite <- ?app_assoc|].
    split; [|done]. rewrite Hr, Hhi, Hka.
    exists h. by unfold to_hiragana.
  - exists [], stems.
    split; [done|]. split; [done|].
    split; [|done]. rewrite Hr, Hhi, Hka. split; [done|].
    cbn [app]. rewrite elem_of_app.
    intros [Hin|Hin]; [|by apply Hstems in Hin as [? _]].
    case_bool_decide as Hne; [by apply elem_of_nil in Hin|].
    apply list_elem_of_singleton in Hin. congruence.
Qed.

Lemma fallback_terms_guards_witness :
  ∃ root convs stems,
    get_root_form lexicon_generator (py "iku") = Return root
    ∧ [py "iku"; iku_hiragana; iku_katakana; iku_kanji; iku_kanji]
      = py "iku" :: (if bool_decide (root = py "iku") then [] else [root])
                    ++ convs ++ stems
    ∧ (if is_romaji (py "iku") then
         ∃ hiragana katakana hiragana_root katakana_root,
           to_hiragana lexicon_generator (py "iku") = Return hiragana
           ∧ to_katakana lexicon_generator (py "iku") = Return katakana
           ∧ get_root_form lexicon_generator hiragana = Return hiragana_root
           ∧ get_root_form lexicon_generator katakana = Return katakana_root
           ∧ convs = [hiragana; katakana]
                     ++ (if bool_decide (hiragana_root = hiragana)
                         then [] else [hiragana_root])
                     ++ (if bool_decide (katakana_root = katakana)
                         then [] else [katakana_root])
       else if is_hiragana (py "iku") then
         ∃ katakana, to_katakana lexicon_generator (py "iku") = Return katakana
                     ∧ convs = [katakana]
       else if is_katakana (py "iku") then
         ∃ hiragana, to_hiragana lexicon_generator (py "iku") = Return hiragana
                     ∧ convs = [hiragana]
       else
         convs = []
         ∧ py "iku" ∉ (if bool_decide (root = py "iku") then [] else [root])
                      ++ convs ++ stems)
    ∧ (length stems ≤ 1)%nat
    ∧ (∀ stem, stem ∈ stems →
         stem ≠ py "iku"
         ∧ ∃ suffix, suffix ∈ SUFFIXES ∧ py "iku" = stem ++ suffix
                     ∧ (2 ≤ len stem)%nat).
Proof.
  apply (fallback_terms_guards lexicon_generator (py "iku")). reflexivity.
Defined.

(** Every list the generator returns starts with the Original and, if
    it differs, the root form. *)
Lemma get_fallback_terms_base (self : JapaneseFallbackGenerator)
    (word : pystr) (terms : list pystr) :
  get_fallback_terms self word = Return terms →
  ∃ root rest,
    get_root_form self word = Return root
    ∧ terms = append_if_differs [word] root word ++ rest.
Proof.
  intros (root & base & Hroot & Hbase & Hcases)%get_fallback_terms_inv.
  exists root. rewrite <- Hbase. clear Hbase.
  destruct Hcases as [(_ & h & hr & kr & _ & _ & _ & ->)
                     |[(_ & _ & h & _ & ->)
                      |[(_ & _ & _ & h & _ & ->)|(_ & _ & _ & ->)]]];
    repeat split_append; split_stems; eexists; (split; [done|]);
    by rewrite <- ?app_assoc.
Qed.

(** X3: when the analyzer gives a word a dictionary form, that form is
    always among the candidates: it is the Original itself, or it is the
    candidate right after the Original. *)
Theorem root_form_is_candidate (self : JapaneseFallbackGenerator)
    (word : pystr) (terms : list pystr) :
  get_fallback_terms self word = Return terms →
  ∃ root, get_root_form self word = Return root
          ∧ root ∈ terms
          ∧ (root ≠ word → terms !! 1%nat = Some root).
Proof.
  intros (root & rest & Hroot & ->)%get_fallback_terms_base.
  destruct (base_elements word root) as (_ & Hin & _ & Htwo).
  exists root. split; [done|]. split.
  - apply elem_of_app. by left.
  - intros Hne. by rewrite (Htwo Hne).
Qed.

Lemma root_form_is_candidate_witness :
  ∃ root, get_root_form root_generator hashitta = Return root
          ∧ root ∈ [hashitta; hashiru; hashi_stem]
          ∧ (root ≠ hashitta →
             [hashitta; hashiru; hashi_stem] !! 1%nat = Some root).
Proof.
  apply (root_form_is_candidate root_generator hashitta). reflexivity.
Defined.

(** X4: the fan-out of the generator.  A romanized word, the empty string
    included, gets between 3 and 6 candidates (it is never stripped of a
    suffix); any other word gets at most 4. *)
Theorem fallback_terms_fan_out (self : JapaneseFallbackGenerator)
    (word : pystr) :
  match get_fallback_terms self word with
  | Return terms =>
      if is_romaji word then (3 ≤ length terms ≤ 6)%nat
      else (1 ≤ length terms ≤ 4)%nat
  | Raise e => ∃ text, sudachi self text = Raise e ∨ kakasi self text = Raise e
  end.
Proof.
  pose proof (get_fallback_terms_shape self word) as Hshape.
  destruct (get_fallback_terms self word) as [terms|e] eqn:Hrun; [|done].
  clear Hshape.
  apply get_fallback_terms_inv in Hrun
    as (root & base & _ & Hbase & Hcases).
  pose proof (append_if_differs_length [word] root word) as Hb.
  rewrite <- Hbase in Hb. cbn in Hb.
  destruct Hcases as [(Hr & h & hr & kr & _ & _ & _ & ->)
                     |[(Hr & _ & h & _ & ->)
                      |[(Hr & _ & _ & h & _ & ->)|(Hr & _ & _ & ->)]]];
    rewrite Hr.
  - rewrite romaji_no_stems by done.
    match goal with
    | |- context [append_if_differs ?t kr ?y] =>
        pose proof (append_if_differs_length t kr y) as H2
    end.
    match goal with
    | |- context [append_if_differs ?t hr ?y] =>
        pose proof (append_if_differs_length t hr y) as H1
    end.
    rewrite !length_app in H1. cbn in H1. lia.
  - match goal with
    | |- context [strip_loop word SUFFIXES ?t] =>
        pose proof (strip_loop_length word t) as H1
    end.
    rewrite length_app in H1. cbn in H1. lia.
  - match goal with
    | |- context [strip_loop word SUFFIXES ?t] =>
        pose proof (strip_loop_length word t) as H1
    end.
    rewrite length_app in H1. cbn in H1. lia.
  - pose proof (strip_loop_length word base) as H1. lia.
Qed.

(** X5: for a romanized word, everything the first draft of the generator
    lists (the Original, its root form and the two conversions) is also
    listed by the final generator. *)
Theorem draft_terms_kept (self : JapaneseFallbackGenerator)
    (word : pystr) (terms : list pystr) :
  is_romaji word = true →
  get_fallback_terms self word = Return terms →
  ∃ draft, get_fallback_terms_draft self word = Return draft
           ∧ length draft = 4%nat
           ∧ ∀ t, t ∈ draft → t ∈ terms.
Proof.
  intros Hr (root & base & Hroot & Hbase & Hcases)%get_fallback_terms_inv.
  destruct Hcases as [(_ & h & hr & kr & Hh & _ & _ & ->)
                     |[(Hr' & _)|[(Hr' & _)|(Hr' & _)]]];
    [|congruence..].
  exists [word; root; h; hiragana_to_katakana h]. split; [|split; [done|]].
  - unfold get_fallback_terms_draft, to_katakana, to_hiragana.
    rewrite Hroot. cbn. by rewrite Hh.
  - rewrite romaji_no_stems by done.
    destruct (base_elements word root) as (Hw & Hroot' & _).
    rewrite <- Hbase in Hw, Hroot'.
    do 2 split_append.
    intros t Ht. rewrite !elem_of_app.
    repeat (apply elem_of_cons in Ht as [->|Ht]);
      [tauto|tauto| |  |by apply elem_of_nil in Ht].
    + left. left. left. right. by left.
    + left. left. right. by left.
Qed.

Lemma draft_terms_kept_witness :
  ∃ draft, get_fallback_terms_draft plain_generator (py "iku") = Return draft
           ∧ length draft = 4%nat
           ∧ ∀ t, t ∈ draft → t ∈ [py "iku"; py "iku"; py "iku"].
Proof.
  apply (draft_terms_kept plain_generator (py "iku")); reflexivity.
Defined.

(** ** jidoujisho's generator and its Python port *)

Lemma substring_from_0 (s : pystr) (n : nat) : substring s 0 n = take n s.
Proof. unfold substring. by rewrite Nat.sub_0_r. Qed.

(** X6: jidoujisho's [generateFallbackTerms] returns at most 5 fallbacks.
    For a term that is not romaji: if it is longer than 4 code units, the
    last fallback is always the term without its last two code units; if
    it is not, the term is never stripped and there are at most 3
    fallbacks.  An exception can only come from [getRootForm]. *)
Theorem generateFallbackTerms_fan_out (kanaKit : KanaKit)
    (getRootForm : pystr → outcome pystr) (searchTerm : pystr) :
  match generateFallbackTerms kanaKit getRootForm searchTerm with
  | Return fallbacks =>
      (length fallbacks ≤ 5)%nat
      ∧ (if isRomaji kanaKit searchTerm then True
         else if bool_decide (4 < length searchTerm)%nat
              then last fallbacks
                   = Some (take (length searchTerm - 2) searchTerm)
              else (length fallbacks ≤ 3)%nat)
  | Raise e => ∃ text, getRootForm text = Raise e
  end.
Proof.
  unfold generateFallbackTerms.
  destruct (getRootForm searchTerm) as [rootForm|e] eqn:Hroot; [|cbn; by eauto].
  cbn.
  pose proof (append_if_differs_length [] rootForm searchTerm) as Hb.
  cbn in Hb.
  set (base := append_if_differs [] rootForm searchTerm) in *.
  destruct (isRomaji kanaKit searchTerm).
  - destruct (getRootForm (toHiragana kanaKit searchTerm)) as [hf|e] eqn:Hh;
      [|cbn; by eauto]. cbn.
    destruct (getRootForm (toKatakana kanaKit searchTerm)) as [kf|e] eqn:Hk;
      [|cbn; by eauto]. cbn.
    split; [|done].
    pose proof (append_if_differs_length
                  (base ++ [toHiragana kanaKit searchTerm]) hf
                  (toHiragana kanaKit searchTerm)) as H1.
    pose proof (append_if_differs_length
                  (append_if_differs
                     (base ++ [toHiragana kanaKit searchTerm]) hf
                     (toHiragana kanaKit searchTerm)
                   ++ [toKatakana kanaKit searchTerm]) kf
                  (toKatakana kanaKit searchTerm)) as H2.
    rewrite !length_app in H1, H2. cbn [length] in H1, H2. lia.
  - cbn.
    set (t1 := if isHiragana kanaKit searchTerm
               then base ++ [toKatakana kanaKit searchTerm] else base).
    assert (length t1 ≤ 2)%nat as H1.
    { unfold t1. destruct (isHiragana kanaKit searchTerm);
        rewrite ?length_app; cbn; lia. }
    set (t2 := if isKatakana kanaKit searchTerm
               then t1 ++ [toHiragana kanaKit searchTerm] else t1).
    assert (length t2 ≤ 3)%nat as H2.
    { unfold t2. destruct (isKatakana kanaKit searchTerm);
        rewrite ?length_app; cbn; lia. }
    case_bool_decide as Hlong; [|split; lia].
    rewrite !substring_from_0. split; [|apply last_snoc].
    destruct (endswith searchTerm SOUNI); rewrite !length_app; cbn; lia.
Qed.

(** X7: on romanized terms the Python generator is a faithful port of
    jidoujisho's.  When the two share their collaborators (the same root
    forms, [kakasi.convert] answering as [kanaKit.toHiragana], and
    [kanaKit.toKatakana] being [hiragana_to_katakana] after it), the
    Python list is the Original followed by a rearrangement of
    jidoujisho's fallbacks, and one raises exactly when the other does,
    with the same exception. *)
Theorem port_agrees_on_romaji (self : JapaneseFallbackGenerator)
    (kanaKit : KanaKit) (word : pystr) :
  (∀ t, kakasi self t = Return (toHiragana kanaKit t)) →
  (∀ t, toKatakana kanaKit t = hiragana_to_katakana (toHiragana kanaKit t)) →
  isRomaji kanaKit word = true →
  is_romaji word = true →
  match generateFallbackTerms kanaKit (get_root_form self) word,
        get_fallback_terms self word with
  | Return fallbacks, Return terms => terms ≡ₚ word :: fallbacks
  | Raise e, Raise e' => e = e'
  | _, _ => False
  end.
Proof.
  intros Hkakasi Hkata Hdart Hpy.
  unfold generateFallbackTerms, get_fallback_terms, to_katakana, to_hiragana.
  rewrite Hdart, Hpy, Hkata, Hkakasi.
  destruct (get_root_form self word) as [root|e]; [|done]. cbn.
  destruct (get_root_form self (toHiragana kanaKit word)) as [hr|e];
    [|done]. cbn.
  destruct (get_root_form self
              (hiragana_to_katakana (toHiragana kanaKit word))) as [kr|e];
    [|done]. cbn.
  rewrite romaji_no_stems by done.
  unfold append_if_differs. repeat case_bool_decide; cbn; solve_Permutation.
Qed.

Lemma port_agrees_on_romaji_witness :
  match generateFallbackTerms shift_kana_kit (get_root_form plain_generator)
                              (py "iku"),
        get_fallback_terms plain_generator (py "iku") with
  | Return fallbacks, Return terms => terms ≡ₚ py "iku" :: fallbacks
  | Raise e, Raise e' => e = e'
  | _, _ => False
  end.
Proof.
  apply (port_agrees_on_romaji plain_generator shift_kana_kit (py "iku"));
    reflexivity.
Defined.

(** ** ImprovedTokenizer *)

Lemma strip_all_filter (word : pystr) (suffixes terms : list pystr) :
  strip_all word suffixes terms
  = terms ++ ((λ s, slice_to_neg word (len s))
                <$> List.filter (endswith word) suffixes).
Proof.
  revert terms. induction suffixes as [|s rest IH]; intros terms; cbn.
  - by rewrite app_nil_r.
  - rewrite IH. destruct (endswith word s); cbn; [by rewrite <- app_assoc|done].
Qed.

Lemma endswith_refl (word : pystr) : endswith word word = true.
Proof. apply endswith_true. by exists []. Qed.

Lemma slice_to_neg_all (word : pystr) : slice_to_neg word (len word) = [].
Proof.
  unfold slice_to_neg, len. destruct (length word) eqn:E; [done|].
  rewrite <- E. by rewrite Nat.sub_diag.
Qed.

Lemma search_terms_inv (self : ImprovedTokenizer) (word : pystr)
    (terms : list pystr) :
  ImprovedTokenizer_get_search_terms self word = Return terms →
  ∃ middle,
    terms = word :: middle
            ++ ((λ s, slice_to_neg word (len s))
                  <$> List.filter (endswith word) (COMMON_SUFFIXES self)).
Proof.
  unfold ImprovedTokenizer_get_search_terms.
  destruct (tokenizer_root_form self word) as [root|e]; [|done]. cbn.
  destruct (append_if_differs_app [word] root word) as (extra & -> & _).
  destruct (free_is_romaji self word); [|destruct (free_is_hiragana self word)].
  - destruct (hiragana_of self word) as [h|e]; [|done]. cbn.
    destruct (katakana_of self word) as [k|e]; [|done]. cbn.
    intros H. cbv [mret outcome_ret] in H. injection H as <-.
    rewrite strip_all_filter. exists (extra ++ [h; k]).
    cbn. by rewrite <- !app_assoc.
  - destruct (katakana_of self word) as [k|e]; [|done]. cbn.
    intros H. cbv [mret outcome_ret] in H. injection H as <-.
    rewrite strip_all_filter. exists (extra ++ [k]).
    cbn. by rewrite <- !app_assoc.
  - cbn. intros H. cbv [mret outcome_ret] in H. injection H as <-.
    rewrite strip_all_filter. by exists extra.
Qed.

(** X8: [ImprovedTokenizer.get_search_terms] strips suffixes without any
    test on the length of what is left: a word that is itself one of the
    common suffixes gets the empty string as a search term (after the word
    itself, which is always the first term). *)
Theorem search_terms_empty_stem (self : ImprovedTokenizer) (word : pystr)
    (terms : list pystr) :
  word ∈ COMMON_SUFFIXES self →
  ImprovedTokenizer_get_search_terms self word = Return terms →
  head terms = Some word ∧ [] ∈ terms.
Proof.
  intros Hin (middle & ->)%search_terms_inv. split; [done|].
  right. rewrite elem_of_app. right.
  apply list_elem_of_fmap. exists word. split.
  - by rewrite slice_to_neg_all.
  - apply list_elem_of_In, filter_In. split; [by apply list_elem_of_In|].
    apply endswith_refl.
Qed.

Lemma search_terms_empty_stem_witness :
  head [[0x305f]; [0x30bf]; []] = Some [0x305f]
  ∧ [] ∈ [[0x305f]; [0x30bf]; ([] : pystr)].
Proof.
  apply (search_terms_empty_stem plain_tokenizer [0x305f]).
  - unfold plain_tokenizer, SUFFIXES. cbn. do 2 right. by left.
  - reflexivity.
Defined.

(** X9: with an [ImprovedTokenizer], an exact match wins over every
    fallback: if some dictionary files the word itself, the lookup returns
    the first entry of the first such dictionary. *)
Theorem improved_profile_exact_match (tokenizer : ImprovedTokenizer)
    (dicts_before : list DictionaryFormat) (A : DictionaryFormat)
    (dicts_after : list DictionaryFormat) (word : pystr)
    (terms : list pystr) (e : DictionaryEntry) (rest : list DictionaryEntry) :
  ImprovedTokenizer_get_search_terms tokenizer word = Return terms →
  (∀ d, d ∈ dicts_before → search d word = Return []) →
  search A word = Return (e :: rest) →
  LanguageProfile_get_word_info
    (improved_profile tokenizer (dicts_before ++ A :: dicts_after)) word
  = Return (inl e).
Proof.
  intros Hterms Hbefore HA.
  pose proof Hterms as (middle & Hshape)%search_terms_inv.
  unfold LanguageProfile_get_word_info, improved_profile.
  cbn [get_search_terms profile_dictionaries].
  rewrite Hterms. cbn [mbind outcome_bind]. rewrite Hshape.
  pose proof (probe_terms_hit first_entry dicts_before dicts_after A []
                (middle ++ ((λ s, slice_to_neg word (len s))
                   <$> List.filter (endswith word) (COMMON_SUFFIXES tokenizer)))
                word (e :: rest)) as Hhit.
  cbn [app] in Hhit. rewrite Hhit; [done| |done..].
  by intros t d ?%elem_of_nil.
Qed.

Lemma improved_profile_exact_match_witness :
  LanguageProfile_get_word_info
    (improved_profile plain_tokenizer
       ([memory_dictionary []]
        ++ memory_dictionary [entry hashitta (py "ran")] :: []))
    hashitta
  = Return (inl (entry hashitta (py "ran"))).
Proof.
  refine (improved_profile_exact_match plain_tokenizer [memory_dictionary []]
            (memory_dictionary [entry hashitta (py "ran")]) [] hashitta
            [hashitta; hashi_stem] (entry hashitta (py "ran")) [] _ _ _).
  - reflexivity.
  - intros d Hd. apply list_elem_of_singleton in Hd as ->. reflexivity.
  - reflexivity.
Defined.

(** ** What a lookup result means *)

Section ProbingInversion.
Context {R : Type} (on_hit : list DictionaryEntry → outcome R).

Lemma probe_dictionaries_inv (dicts : list DictionaryFormat) (term : pystr) :
  match probe_dictionaries on_hit dicts term with
  | Return (Some r) =>
      ∃ d entries, d ∈ dicts ∧ search d term = Return entries
                   ∧ entries ≠ [] ∧ on_hit entries = Return r
  | Return None => ∀ d, d ∈ dicts → search d term = Return []
  | Raise e =>
      ∃ d, d ∈ dicts
           ∧ (search d term = Raise e
              ∨ ∃ entries, search d term = Return entries
                           ∧ entries ≠ [] ∧ on_hit entries = Raise e)
  end.
Proof.
  induction dicts as [|d dicts IH]; cbn.
  - by intros d ?%elem_of_nil.
  - destruct (search d term) as [[|entry entries]|e] eqn:Hd; cbn.
    + destruct (probe_dictionaries on_hit dicts term) as [[r|]|e].
      * destruct IH as (d' & entries & ? & ?). exists d', entries.
        split; [by right|done].
      * intros d' [->|?]%elem_of_cons; [done|by apply IH].
      * destruct IH as (d' & ? & ?). exists d'. split; [by right|done].
    + destruct (on_hit (entry :: entries)) as [r|e] eqn:Hhit; cbn.
      * exists d, (entry :: entries). split; [by left|done].
      * exists d. split; [by left|]. right. by exists (entry :: entries).
    + exists d. split; [by left|by left].
Qed.

Lemma probe_terms_inv (dicts : list DictionaryFormat) (terms : list pystr) :
  match probe_terms on_hit dicts terms with
  | Return (Some r) =>
      ∃ t d entries, t ∈ terms ∧ d ∈ dicts ∧ search d t = Return entries
                     ∧ entries ≠ [] ∧ on_hit entries = Return r
  | Return None => ∀ t d, t ∈ terms → d ∈ dicts → search d t = Return []
  | Raise e =>
      ∃ t d, t ∈ terms ∧ d ∈ dicts
             ∧ (search d t = Raise e
                ∨ ∃ entries, search d t = Return entries
                             ∧ entries ≠ [] ∧ on_hit entries = Raise e)
  end.
Proof.
  induction terms as [|t terms IH]; cbn.
  - by intros t d ?%elem_of_nil.
  - pose proof (probe_dictionaries_inv dicts t) as Ht.
    destruct (probe_dictionaries on_hit dicts t) as [[r|]|e]; cbn.
    + destruct Ht as (d & entries & ? & ?). exists t, d, entries.
      split; [by left|done].
    + destruct (probe_terms on_hit dicts terms) as [[r|]|e].
      * destruct IH as (t' & d & entries & ? & ?). exists t', d, entries.
        split; [by right|done].
      * intros t' d [->|?]%elem_of_cons ?; [by apply Ht|by apply IH].
      * destruct IH as (t' & d & ? & ?). exists t', d.
        split; [by right|done].
    + destruct Ht as (d & ? & ?). exists t, d. split; [by left|done].
Qed.
End ProbingInversion.

(** X10: what [Language.get_word_info] returns is always justified by
    the dictionaries.  A found result is the non-empty result of
    searching one of the fallback terms in one of the configured
    dictionaries; the not-found value is returned only when every
    fallback term was searched in every dictionary and all the results
    were empty. *)
Theorem lookup_result_justified (lang : Language) (word : pystr)
    (result : list DictionaryEntry + WordInfo) :
  get_word_info lang word = Return result →
  ∃ terms,
    lang_get_fallback_terms lang word = Return terms
    ∧ match result with
      | inl entries =>
          entries ≠ []
          ∧ ∃ t d, t ∈ terms ∧ d ∈ dictionaries lang
                   ∧ search d t = Return entries
      | inr info =>
          info = not_found word
          ∧ ∀ t d, t ∈ terms → d ∈ dictionaries lang → search d t = Return []
      end.
Proof.
  unfold get_word_info.
  destruct (lang_get_fallback_terms lang word) as [terms|e]; [|done]. cbn.
  pose proof (probe_terms_inv (λ result, mret result) (dictionaries lang) terms)
    as Hprobe.
  destruct (probe_terms _ (dictionaries lang) terms) as [[entries|]|e];
    [| |done]; cbn; intros H; cbv [mret outcome_ret] in H;
    injection H as <-; exists terms; (split; [done|]).
  - destruct Hprobe as (t & d & found & ? & ? & ? & ? & Hhit).
    cbv [mret outcome_ret] in Hhit. injection Hhit as <-.
    split; [done|]. by exists t, d.
  - done.
Qed.

Lemma lookup_result_justified_witness :
  ∃ terms,
    lang_get_fallback_terms
      (JapaneseLanguage root_generator [dictionary_A; dictionary_B]) hashitta
    = Return terms
    ∧ [entry hashiru (py "to run (A)")] ≠ []
    ∧ ∃ t d, t ∈ terms
             ∧ d ∈ dictionaries
                     (JapaneseLanguage root_generator
                        [dictionary_A; dictionary_B])
             ∧ search d t = Return [entry hashiru (py "to run (A)")].
Proof.
  apply (lookup_result_justified
           (JapaneseLanguage root_generator [dictionary_A; dictionary_B])
           hashitta (inl [entry hashiru (py "to run (A)")])).
  reflexivity.
Defined.

(** X11: [LanguageProfile.get_word_info] returns [results[0]] only for a
    non-empty search result, so the indexing never fails: a found entry
    is the first entry of a search of one of the terms, and an exception
    of the lookup is one raised by [get_search_terms] or by a [search]. *)
Theorem profile_lookup_justified (profile : LanguageProfile) (word : pystr) :
  match LanguageProfile_get_word_info profile word with
  | Return (inl e) =>
      ∃ terms t d entries,
        get_search_terms profile word = Return terms
        ∧ t ∈ terms ∧ d ∈ profile_dictionaries profile
        ∧ search d t = Return entries ∧ head entries = Some e
  | Return (inr info) => info = not_found word
  | Raise err =>
      get_search_terms profile word = Raise err
      ∨ ∃ terms t d,
          get_search_terms profile word = Return terms
          ∧ t ∈ terms ∧ d ∈ profile_dictionaries profile
          ∧ search d t = Raise err
  end.
Proof.
  unfold LanguageProfile_get_word_info.
  destruct (get_search_terms profile word) as [terms|err]; [|by left]. cbn.
  pose proof (probe_terms_inv first_entry (profile_dictionaries profile) terms)
    as Hprobe.
  destruct (probe_terms _ (profile_dictionaries profile) terms)
    as [[e|]|err]; cbn.
  - destruct Hprobe as (t & d & entries & ? & ? & ? & Hne & Hhit).
    exists terms, t, d, entries. repeat (split; [done|]).
    destruct entries as [|e' entries]; [done|].
    cbv in Hhit. by injection Hhit as <-.
  - done.
  - right. destruct Hprobe as (t & d & ? & ? & [?|Hhit]).
    + by exists terms, t, d.
    + destruct Hhit as ([|e' entries] & _ & Hne & Hhit); [done|].
      discriminate Hhit.
Qed.

(** X13: the root-form fallback resolves an inflected word.  When no
    dictionary files the word itself but the analyzer gives it a
    different dictionary form, the lookup returns the result of the first
    dictionary that files that form. *)
Theorem root_form_lookup (generator : JapaneseFallbackGenerator)
    (dicts_before : list DictionaryFormat) (A : DictionaryFormat)
    (dicts_after : list DictionaryFormat) (word root : pystr)
    (terms : list pystr) (entries : list DictionaryEntry) :
  get_fallback_terms generator word = Return terms →
  get_root_form generator word = Return root →
  root ≠ word →
  (∀ d, d ∈ dicts_before ++ A :: dicts_after → search d word = Return []) →
  (∀ d, d ∈ dicts_before → search d root = Return []) →
  search A root = Return entries →
  entries ≠ [] →
  get_word_info (JapaneseLanguage generator (dicts_before ++ A :: dicts_after))
                word
  = Return (inl entries).
Proof.
  intros Hterms Hroot Hne Hword Hbefore HA Hentries.
  pose proof Hterms as (root' & rest & Hroot' & Hshape)%get_fallback_terms_base.
  assert (root' = root) as -> by congruence.
  destruct (base_elements word root) as (_ & _ & _ & Htwo).
  rewrite (Htwo Hne) in Hshape.
  unfold get_word_info. cbn [lang_get_fallback_terms dictionaries JapaneseLanguage].
  rewrite Hterms. cbn [mbind outcome_bind]. rewrite Hshape.
  pose proof (probe_terms_hit (λ result, mret result)
                dicts_before dicts_after A [word] rest root entries) as Hhit.
  cbn [app] in Hhit. cbn [app]. rewrite Hhit; [done| |done..].
  intros t d Ht Hd. apply list_elem_of_singleton in Ht as ->. by apply Hword.
Qed.

Lemma root_form_lookup_witness :
  get_word_info
    (JapaneseLanguage root_generator ([] ++ dictionary_A :: [dictionary_B]))
    hashitta
  = Return (inl [entry hashiru (py "to run (A)")]).
Proof.
  refine (root_form_lookup root_generator [] dictionary_A [dictionary_B]
            hashitta hashiru [hashitta; hashiru; hashi_stem]
            [entry hashiru (py "to run (A)")] _ _ _ _ _ _ _).
  - reflexivity.
  - reflexivity.
  - discriminate.
  - intros d Hd. apply elem_of_cons in Hd as [->|Hd]; [reflexivity|].
    apply list_elem_of_singleton in Hd as ->. reflexivity.
  - by intros d ?%elem_of_nil.
  - reflexivity.
  - discriminate.
Defined.

(** ** AppState.initialize *)

Lemma load_all_two (load : Language → outcome (list DictionaryFormat))
    (ja zh : Language) (self : AppState) :
  load_all_dictionaries load [("ja", ja); ("zh", zh)] self
  = match load ja with
    | Raise e => (self, Raise e)
    | Return dj =>
        let self1 :=
          {| languages := <["ja" := set_dictionaries ja dj]> (languages self) |}
        in
        match load zh with
        | Raise e => (self1, Raise e)
        | Return dz =>
            ({| languages :=
                  <["zh" := set_dictionaries zh dz]> (languages self1) |},
             Return ())
        end
    end.
Proof.
  cbn. destruct (load ja) as [dj|e]; [|done]. by destruct (load zh).
Qed.

(** X14: after a successful [AppState.initialize] exactly Japanese and
    Chinese are registered, whatever was registered before: a lookup
    under "ja" (resp. "zh") is the lookup of the loaded language with the
    dictionaries loaded for it, and a lookup under any other code raises
    [KeyError]. *)
Theorem initialize_registers
    (load_ja load_zh : outcome Language)
    (load_dicts : Language → outcome (list DictionaryFormat))
    (self self' : AppState) :
  initialize load_ja load_zh load_dicts self = (self', Return ()) →
  ∃ ja zh dj dz,
    load_ja = Return ja ∧ load_zh = Return zh
    ∧ load_dicts ja = Return dj ∧ load_dicts zh = Return dz
    ∧ (∀ word, AppState_get_word_info self' "ja" word
               = get_word_info (set_dictionaries ja dj) word)
    ∧ (∀ word, AppState_get_word_info self' "zh" word
               = get_word_info (set_dictionaries zh dz) word)
    ∧ (∀ code word, code ≠ "ja" → code ≠ "zh" →
         AppState_get_word_info self' code word = Raise (KeyError code)).
Proof.
  unfold initialize.
  destruct load_ja as [ja|e]; [|done]. destruct load_zh as [zh|e]; [|done].
  rewrite load_all_two.
  destruct (load_dicts ja) as [dj|e] eqn:Hj; [|done].
  destruct (load_dicts zh) as [dz|e] eqn:Hz; [|done].
  cbn. intros [= <-]. exists ja, zh, dj, dz. do 4 (split; [done|]).
  unfold AppState_get_word_info. cbn [languages]. split; [|split].
  - intros word. rewrite lookup_insert_ne by done.
    by rewrite lookup_insert_eq.
  - intros word. by rewrite lookup_insert_eq.
  - intros code word Hja Hzh.
    rewrite !lookup_insert_ne by done. by rewrite lookup_empty.
Qed.

Lemma initialize_registers_witness :
  ∃ ja zh dj dz,
    Return loaded_ja = Return ja ∧ Return loaded_zh = Return zh
    ∧ Return [dictionary_A] = Return dj ∧ Return [dictionary_A] = Return dz
    ∧ (∀ word, AppState_get_word_info initialized_app "ja" word
               = get_word_info (set_dictionaries ja dj) word)
    ∧ (∀ word, AppState_get_word_info initialized_app "zh" word
               = get_word_info (set_dictionaries zh dz) word)
    ∧ (∀ code word, code ≠ "ja" → code ≠ "zh" →
         AppState_get_word_info initialized_app code word
         = Raise (KeyError code)).
Proof.
  apply (initialize_registers (Return loaded_ja) (Return loaded_zh)
           (λ _, Return [dictionary_A]) (japanese_app down_generator [])
           initialized_app).
  reflexivity.
Defined.

Ltac registry_keys code :=
  rewrite !lookup_insert_is_Some, lookup_empty;
  pose proof (@is_Some_None Language);
  destruct (decide (code = "ja")); destruct (decide (code = "zh"));
  intuition congruence.

(** X15: a failed [AppState.initialize].  If one of the languages fails
    to load, the state is left as it was.  If loading the dictionaries of
    a language fails, the registry has already been replaced: exactly
    "ja" and "zh" are registered, whatever was registered before. *)
Theorem initialize_failure
    (load_ja load_zh : outcome Language)
    (load_dicts : Language → outcome (list DictionaryFormat))
    (self self' : AppState) (e : exn) :
  initialize load_ja load_zh load_dicts self = (self', Raise e) →
  ((load_ja = Raise e ∨ ∃ ja, load_ja = Return ja ∧ load_zh = Raise e)
   ∧ self' = self)
  ∨ (∃ ja zh,
       load_ja = Return ja ∧ load_zh = Return zh
       ∧ (load_dicts ja = Raise e
          ∨ ∃ dj, load_dicts ja = Return dj ∧ load_dicts zh = Raise e)
       ∧ ∀ code, is_Some (languages self' !! code)
                 ↔ code = "ja" ∨ code = "zh").
Proof.
  unfold initialize.
  destruct load_ja as [ja|e1]; [|intros [= <- <-]; left; split; [by left|done]].
  destruct load_zh as [zh|e2];
    [|intros [= <- <-]; left; split; [right; by exists ja|done]].
  rewrite load_all_two.
  destruct (load_dicts ja) as [dj|e1] eqn:Hj.
  - destruct (load_dicts zh) as [dz|e2] eqn:Hz; [done|].
    cbn. intros [= <- <-]. right. exists ja, zh. do 2 (split; [done|]).
    split; [right; by exists dj|].
    intros code. cbn [languages]. registry_keys code.
  - intros [= <- <-]. right. exists ja, zh. do 2 (split; [done|]).
    split; [by left|].
    intros code. cbn [languages]. registry_keys code.
Qed.

Lemma initialize_failure_witness :
  ((Return loaded_ja = Raise (RuntimeError "no jieba")
    ∨ ∃ ja, Return loaded_ja = Return ja
            ∧ @Raise Language (RuntimeError "no jieba")
              = Raise (RuntimeError "no jieba"))
   ∧ initialized_app = initialized_app)
  ∨ (∃ ja zh,
       Return loaded_ja = Return ja
       ∧ Raise (RuntimeError "no jieba") = Return zh
       ∧ ((λ _ : Language, Return [dictionary_A]) ja
          = Raise (RuntimeError "no jieba")
          ∨ ∃ dj, (λ _ : Language, Return [dictionary_A]) ja = Return dj
                  ∧ (λ _ : Language, Return [dictionary_A]) zh
                    = Raise (RuntimeError "no jieba"))
       ∧ ∀ code, is_Some (languages initialized_app !! code)
                 ↔ code = "ja" ∨ code = "zh").
Proof.
  apply (initialize_failure (Return loaded_ja)
           (Raise (RuntimeError "no jieba"))
           (λ _, Return [dictionary_A]) initialized_app initialized_app
           (RuntimeError "no jieba")).
  reflexivity.
Defined.

(** ** Two more relations *)

Lemma probe_dictionaries_first_entry (dicts : list DictionaryFormat)
    (term : pystr) :
  probe_dictionaries first_entry dicts term
  = (hit ← probe_dictionaries (λ result, mret result) dicts term;
     match hit with
     | Some entries => e ← first_entry entries; mret (Some e)
     | None => mret None
     end).
Proof.
  induction dicts as [|d dicts IH]; [done|]. cbn.
  destruct (search d term) as [[|e entries]|err]; cbn; [|done|done].
  apply IH.
Qed.

Lemma probe_terms_first_entry (dicts : list DictionaryFormat)
    (terms : list pystr) :
  probe_terms first_entry dicts terms
  = (hit ← probe_terms (λ result, mret result) dicts terms;
     match hit with
     | Some entries => e ← first_entry entries; mret (Some e)
     | None => mret None
     end).
Proof.
  induction terms as [|t terms IH]; [done|]. cbn.
  rewrite probe_dictionaries_first_entry.
  destruct (probe_dictionaries (λ result, mret result) dicts t)
    as [[entries|]|err]; cbn; [|apply IH|done].
  by destruct (first_entry entries).
Qed.

(** X16: the two lookups differ only in what they hand back.  With the
    same dictionaries and the same terms, [LanguageProfile.get_word_info]
    returns the first entry of the result that [Language.get_word_info]
    returns, the same not-found value, or raises the same exception. *)
Theorem profile_lookup_is_first_entry (lang : Language)
    (profile : LanguageProfile) (word : pystr) :
  profile_dictionaries profile = dictionaries lang →
  get_search_terms profile word = lang_get_fallback_terms lang word →
  match get_word_info lang word with
  | Return (inl entries) =>
      ∃ e, head entries = Some e
           ∧ LanguageProfile_get_word_info profile word = Return (inl e)
  | Return (inr info) =>
      LanguageProfile_get_word_info profile word = Return (inr info)
  | Raise err => LanguageProfile_get_word_info profile word = Raise err
  end.
Proof.
  intros Hd Ht. unfold LanguageProfile_get_word_info, get_word_info.
  rewrite Hd, Ht.
  destruct (lang_get_fallback_terms lang word) as [terms|err]; [|done]. cbn.
  rewrite probe_terms_first_entry.
  pose proof (probe_terms_inv (λ result, mret result) (dictionaries lang) terms)
    as Hprobe.
  destruct (probe_terms (λ result, mret result) (dictionaries lang) terms)
    as [[entries|]|err]; cbn; [|done|done].
  destruct Hprobe as (_ & _ & found & _ & _ & _ & Hne & Hhit).
  cbv [mret outcome_ret] in Hhit. injection Hhit as <-.
  destruct found as [|e found]; [done|]. by exists e.
Qed.

Lemma profile_lookup_is_first_entry_witness :
  match get_word_info
          (JapaneseLanguage root_generator [dictionary_A; dictionary_B])
          hashitta with
  | Return (inl entries) =>
      ∃ e, head entries = Some e
           ∧ LanguageProfile_get_word_info
               {| profile_dictionaries := [dictionary_A; dictionary_B];
                  get_search_terms := get_fallback_terms root_generator |}
               hashitta = Return (inl e)
  | Return (inr info) =>
      LanguageProfile_get_word_info
        {| profile_dictionaries := [dictionary_A; dictionary_B];
           get_search_terms := get_fallback_terms root_generator |}
        hashitta = Return (inr info)
  | Raise err =>
      LanguageProfile_get_word_info
        {| profile_dictionaries := [dictionary_A; dictionary_B];
           get_search_terms := get_fallback_terms root_generator |}
        hashitta = Raise err
  end.
Proof.
  apply (profile_lookup_is_first_entry
           (JapaneseLanguage root_generator [dictionary_A; dictionary_B])
           {| profile_dictionaries := [dictionary_A; dictionary_B];
              get_search_terms := get_fallback_terms root_generator |}
           hashitta); reflexivity.
Defined.
